(** * Delivery-security backend: the orchestration core

    A shallow embedding of the TypeScript services
      - [RedisService]             (coordination store adapter),
      - [AuthService]              (unlock-token issue and verification),
      - [EventLedgerService]       (audit ledger),
      - [MQTTService], [DeviceService] (device command dispatch),
      - [OrderOrchestratorService] (slot / order workflows),
    followed by the properties of the specification that concern them.

    Conventions.  A service method is [async]; a call of it is a
    computation in a state-and-exception monad over [World], and calls run
    one after the other unless a statement says otherwise (where two calls
    overlap, the method is cut at its [await]).  [Date.now()] is the field
    [w_now] (milliseconds) and is constant during one call.  Pure logging
    through [logger.*] is dropped; the structured security log
    ([logSecurityEvent], [logAuditEvent]) is kept.  The coordination store
    answers every command; the device broker may reject a publish.  The
    helpers that the source leaves as placeholders (they return [null],
    return [true], or only write to the logger) are embedded as they are
    written. *)

From Stdlib Require Import ZArith Lia.
From stdpp Require Import base strings gmap list option pretty.

Local Open Scope Z_scope.

(** ** JavaScript values that end up in log and event metadata *)

Inductive JsVal :=
  | JStr (s : string)
  | JNum (z : Z)
  | JBool (b : bool)
  | JUndefined.

Definition Fields := list (string * JsVal).

(** ** Configuration (config/index.ts) *)

Module Config.

Record t := {
  redis_keyPrefix : string;
  jwt_unlockTokenSecret : string;
  jwt_unlockTokenTTL : Z;
  security_clockSkewToleranceSeconds : Z;
  business_maxUnlockAttempts : Z;
  business_slotReservationTTL : Z;
}.

(** The values the file falls back to when the environment sets nothing. *)
Definition default : t := {|
  redis_keyPrefix := "delivery-security:";
  jwt_unlockTokenSecret := "unlock-token-secret-change-this";
  jwt_unlockTokenTTL := 60;
  security_clockSkewToleranceSeconds := 10;
  business_maxUnlockAttempts := 3;
  business_slotReservationTTL := 1800;
|}.

End Config.

(** ** The redis server, as far as the adapter's commands observe it

    The server is an external collaborator.  A key holds a value and an
    optional absolute expiry time in milliseconds; a key whose expiry time
    has passed is invisible to every command (lazy expiry) but may still sit
    in the table.  Values written by INCR are integers, all others strings. *)

Module Redis.

Inductive Val :=
  | Str (s : string)
  | Int (n : Z).

Record Entry := { e_val : Val; e_exp : option Z }.

Abbreviation Db := (gmap string Entry).

(** A key is expired once the clock is strictly past its expiry time. *)
Definition live (now : Z) (e : Entry) : bool :=
  match e_exp e with
  | None => true
  | Some w => bool_decide (now ≤ w)
  end.

Definition peek (now : Z) (k : string) (db : Db) : option Entry :=
  match db !! k with
  | Some e => if live now e then Some e else None
  | None => None
  end.

(** GET *)
Definition get (now : Z) (k : string) (db : Db) : option Val :=
  e_val <$> peek now k db.

(** EXISTS, for one key: 1 or 0 *)
Definition exists_ (now : Z) (k : string) (db : Db) : Z :=
  match peek now k db with
  | Some _ => 1
  | None => 0
  end.

(** DEL *)
Definition del (k : string) (db : Db) : Db := delete k db.

(** SETEX key seconds value; the server rejects a non-positive time. *)
Definition setEx (now : Z) (k : string) (ttl : Z) (v : Val) (db : Db) : option Db :=
  if bool_decide (0 < ttl)
  then Some (<[k := {| e_val := v; e_exp := Some (now + ttl * 1000) |}]> db)
  else None.

(** SETNX key value: writes (without expiry) only when the key is absent. *)
Definition setNX (now : Z) (k : string) (v : Val) (db : Db) : bool * Db :=
  match peek now k db with
  | Some _ => (false, db)
  | None => (true, <[k := {| e_val := v; e_exp := None |}]> db)
  end.

(** EXPIRE key seconds: a time that is already in the past deletes the key. *)
Definition expire (now : Z) (k : string) (ttl : Z) (db : Db) : bool * Db :=
  match peek now k db with
  | None => (false, db)
  | Some e =>
      if bool_decide (ttl ≤ 0) then (true, delete k db)
      else (true, <[k := {| e_val := e_val e; e_exp := Some (now + ttl * 1000) |}]> db)
  end.

(** INCR key: an absent key counts as 0; the expiry time is kept; a value
    that is not an integer is an error. *)
Definition incr (now : Z) (k : string) (db : Db) : option (Z * Db) :=
  match peek now k db with
  | None => Some (1, <[k := {| e_val := Int 1; e_exp := None |}]> db)
  | Some e =>
      match e_val e with
      | Int n => Some (n + 1, <[k := {| e_val := Int (n + 1); e_exp := e_exp e |}]> db)
      | Str _ => None
      end
  end.

End Redis.

(** ** Domain records (OrderOrchestratorService.ts, AuthService.ts,
       EventLedgerService.ts, DeviceService.ts) *)

Inductive OrderStatus :=
  | created | prepared | assigned | picked_up | complete | cancelled.

Inductive SlotState :=
  | empty | reserved | occupied | unlocking | open | error.

Inductive Platform := uber_eats | deliveroo | just_eat | independent.

Global Instance OrderStatus_eq_dec : EqDecision OrderStatus.
Proof. solve_decision. Defined.
Global Instance SlotState_eq_dec : EqDecision SlotState.
Proof. solve_decision. Defined.

Definition OrderStatus_str (s : OrderStatus) : string :=
  match s with
  | created => "created" | prepared => "prepared" | assigned => "assigned"
  | picked_up => "picked_up" | complete => "complete" | cancelled => "cancelled"
  end.

Definition SlotState_str (s : SlotState) : string :=
  match s with
  | empty => "empty" | reserved => "reserved" | occupied => "occupied"
  | unlocking => "unlocking" | open => "open" | error => "error"
  end.

Definition Platform_str (p : Platform) : string :=
  match p with
  | uber_eats => "uber_eats" | deliveroo => "deliveroo"
  | just_eat => "just_eat" | independent => "independent"
  end.

Record Order := {
  o_id : string;
  o_tenantId : string;
  o_siteId : string;
  o_externalRef : string;
  o_platform : Platform;
  o_riderId : option string;
  o_status : OrderStatus;
}.

Record Slot := {
  s_id : string;
  s_shelfId : string;
  s_siteId : string;
  s_tenantId : string;
  s_index : Z;
  s_state : SlotState;
  s_orderId : option string;
  s_reservedAt : option Z;
  s_isActive : bool;
}.

Record User := {
  u_id : string;
  u_tenantId : string;
  u_totpSecret : option string;
  u_isActive : bool;
}.

Record UnlockToken := {
  jti : string;
  t_tenantId : string;
  t_siteId : string;
  t_shelfId : string;
  t_slotId : string;
  t_orderId : string;
  t_riderId : string;
  exp : Z;
  nbf : Z;
  iat : Z;
}.

Record SecurityEvent := {
  ev_id : option string;
  ev_type : string;
  ev_tenantId : string;
  ev_siteId : option string;
  ev_shelfId : option string;
  ev_slotId : option string;
  ev_orderId : option string;
  ev_riderId : option string;
  ev_userId : option string;
  ev_deviceId : option string;
  ev_metadata : Fields;
  ev_timestamp : option Z;
  ev_createdAt : option Z;
}.

Inductive CommandType :=
  | unlock_slot | lock_slot | emergency_unlock | status_request | firmware_update.

Record DeviceCommand := {
  c_id : string;
  c_type : CommandType;
  c_deviceId : string;
  c_slotId : option string;
  c_payload : Fields;
  c_createdAt : Z;
  c_expiresAt : Z;
}.

(** ** The world the services act on *)

(** External writes that the collaborator behind them can reject. *)
Inductive IO :=
  | IoPublish.

Record World := {
  w_now : Z;
  w_redis : gmap string Redis.Entry;
  w_seclog : list (string * Fields);
  w_mqtt_connected : bool;
  w_published : list (string * DeviceCommand);
  w_timers : list (Z * string);
  w_entropy : N;
  w_fault : IO → bool;
}.

Definition set_now (t : Z) (w : World) : World :=
  {| w_now := t; w_redis := w_redis w; w_seclog := w_seclog w;
     w_mqtt_connected := w_mqtt_connected w; w_published := w_published w;
     w_timers := w_timers w; w_entropy := w_entropy w; w_fault := w_fault w |}.

Definition set_redis (r : gmap string Redis.Entry) (w : World) : World :=
  {| w_now := w_now w; w_redis := r; w_seclog := w_seclog w;
     w_mqtt_connected := w_mqtt_connected w; w_published := w_published w;
     w_timers := w_timers w; w_entropy := w_entropy w; w_fault := w_fault w |}.

Definition set_seclog (l : list (string * Fields)) (w : World) : World :=
  {| w_now := w_now w; w_redis := w_redis w; w_seclog := l;
     w_mqtt_connected := w_mqtt_connected w; w_published := w_published w;
     w_timers := w_timers w; w_entropy := w_entropy w; w_fault := w_fault w |}.

Definition set_published (l : list (string * DeviceCommand)) (w : World) : World :=
  {| w_now := w_now w; w_redis := w_redis w; w_seclog := w_seclog w;
     w_mqtt_connected := w_mqtt_connected w; w_published := l;
     w_timers := w_timers w; w_entropy := w_entropy w; w_fault := w_fault w |}.

Definition set_timers (l : list (Z * string)) (w : World) : World :=
  {| w_now := w_now w; w_redis := w_redis w; w_seclog := w_seclog w;
     w_mqtt_connected := w_mqtt_connected w; w_published := w_published w;
     w_timers := l; w_entropy := w_entropy w; w_fault := w_fault w |}.

Definition set_entropy (n : N) (w : World) : World :=
  {| w_now := w_now w; w_redis := w_redis w; w_seclog := w_seclog w;
     w_mqtt_connected := w_mqtt_connected w; w_published := w_published w;
     w_timers := w_timers w; w_entropy := n; w_fault := w_fault w |}.

(** ** Promises that may reject: state and exceptions

    A thrown [Error] carries its message.  State changes made before the
    throw stay (nothing is rolled back by an exception). *)

Inductive Res (A : Type) :=
  | Ok (a : A)
  | Throw (msg : string).
Arguments Ok {A} a.
Arguments Throw {A} msg.

Definition M (A : Type) : Type := World → Res A * World.

Definition ret {A} (a : A) : M A := fun w => (Ok a, w).
Definition throw {A} (msg : string) : M A := fun w => (Throw msg, w).

Definition bind {A B} (m : M A) (k : A → M B) : M B :=
  fun w =>
    match m w with
    | (Ok a, w') => k a w'
    | (Throw e, w') => (Throw e, w')
    end.

(** [try { m } catch (error) { h error }] *)
Definition try_catch {A} (m : M A) (h : string → M A) : M A :=
  fun w =>
    match m w with
    | (Ok a, w') => (Ok a, w')
    | (Throw e, w') => h e w'
    end.

Definition gets {A} (f : World → A) : M A := fun w => (Ok (f w), w).
Definition modify (f : World → World) : M unit := fun w => (Ok tt, f w).

Global Instance M_ret : MRet M := @ret.
Global Instance M_bind : MBind M := fun A B k m => bind m k.

(** [crypto.randomUUID()], [uuidv4()], [Math.random()]: the n-th draw. *)
Definition uuid (n : N) : string := "uuid-" +:+ pretty n.

Definition randomUUID : M string :=
  fun w => (Ok (uuid (w_entropy w)), set_entropy (N.succ (w_entropy w)) w).

Definition logSecurityEvent (name : string) (fields : Fields) : M unit :=
  modify (fun w => set_seclog (w_seclog w ++ [(name, fields)]) w).

(** [logAuditEvent(action, resource, userId, details)] writes to the same
    structured log. *)
Definition logAuditEvent (action resource userId : string) (details : Fields) : M unit :=
  modify (fun w =>
    set_seclog (w_seclog w ++ [(action, ("resource", JStr resource) :: ("userId", JStr userId) :: details)]) w).

(** [Math.floor(a / b)] and [Math.ceil(a / b)] on integers, [b > 0]. *)
Definition floor_div (a b : Z) : Z := a / b.
Definition ceil_div (a b : Z) : Z := - ((- a) / b).

(** ** RedisService.ts: the coordination store adapter *)

Module RedisService.
Section WithConfig.

Variable cfg : Config.t.

(** [this.client.<command>(...)], at the current time. *)
Definition client_exists (k : string) : M Z :=
  gets (fun w => Redis.exists_ (w_now w) k (w_redis w)).

Definition client_get (k : string) : M (option Redis.Val) :=
  gets (fun w => Redis.get (w_now w) k (w_redis w)).

Definition client_del (k : string) : M unit :=
  modify (fun w => set_redis (Redis.del k (w_redis w)) w).

Definition client_setEx (k : string) (ttl : Z) (v : Redis.Val) : M unit :=
  fun w =>
    match Redis.setEx (w_now w) k ttl v (w_redis w) with
    | Some db => (Ok tt, set_redis db w)
    | None => (Throw "ERR invalid expire time in 'setex' command", w)
    end.

Definition client_setNX (k : string) (v : Redis.Val) : M bool :=
  fun w =>
    let r := Redis.setNX (w_now w) k v (w_redis w) in
    (Ok r.1, set_redis r.2 w).

Definition client_expire (k : string) (ttl : Z) : M bool :=
  fun w =>
    let r := Redis.expire (w_now w) k ttl (w_redis w) in
    (Ok r.1, set_redis r.2 w).

Definition client_incr (k : string) : M Z :=
  fun w =>
    match Redis.incr (w_now w) k (w_redis w) with
    | Some (n, db) => (Ok n, set_redis db w)
    | None => (Throw "ERR value is not an integer or out of range", w)
    end.

Definition getKey (parts : list string) : string :=
  Config.redis_keyPrefix cfg +:+ String.concat ":" parts.

(** Unlock token JTI management *)
Definition storeUnlockTokenJti (jti : string) (ttl : Z) : M unit :=
  let key := getKey ["unlock_jti"; jti] in
  client_setEx key ttl (Redis.Str "1").

Definition verifyUnlockTokenJti (jti : string) : M bool :=
  let key := getKey ["unlock_jti"; jti] in
  exists_ ← client_exists key;
  mret (bool_decide (exists_ = 1)).

Definition consumeUnlockTokenJti (jti : string) : M unit :=
  let key := getKey ["unlock_jti"; jti] in
  client_del key.

(** Rate limiting *)
Definition incrementRateLimit (key : string) (windowMs : Z) : M Z :=
  let rateLimitKey := getKey ["rate_limit"; key] in
  current ← client_incr rateLimitKey;
  (if bool_decide (current = 1)
   then client_expire rateLimitKey (ceil_div windowMs 1000);; mret tt
   else mret tt);;
  mret current.

(** Slot reservation management *)
Definition reserveSlot (slotId orderId : string) (ttl : Z) : M bool :=
  let key := getKey ["slot_reservation"; slotId] in
  result ← client_setNX key (Redis.Str orderId);
  if result : bool
  then client_expire key ttl;; mret true
  else mret false.

Definition getSlotReservation (slotId : string) : M (option Redis.Val) :=
  let key := getKey ["slot_reservation"; slotId] in
  client_get key.

Definition releaseSlot (slotId : string) : M unit :=
  let key := getKey ["slot_reservation"; slotId] in
  client_del key.

(** Caching.  [value] is the text [JSON.stringify] gives for the cached
    value; the caller supplies it. *)
Definition setCache (key : string) (value : string) (ttl : Z) : M unit :=
  let cacheKey := getKey ["cache"; key] in
  client_setEx cacheKey ttl (Redis.Str value).

End WithConfig.
End RedisService.

(** ** jsonwebtoken, as far as AuthService uses it

    The compact serialization is abstracted: a token is either a claim set
    signed under some key with some algorithm and key id, or a string that
    does not parse.  Signatures are ideal: verification under [key] accepts
    exactly the tokens signed with [key]. *)

Module jwt.

Inductive Token :=
  | Signed (alg kid key : string) (payload : UnlockToken)
  | Malformed (raw : string).

Definition sign (payload : UnlockToken) (key alg kid : string) : Token :=
  Signed alg kid key payload.

(** [jwt.verify(token, key, { algorithms, clockTolerance })] at clock
    [clockTimestamp] (seconds): signature first, then
    [nbf > clockTimestamp + clockTolerance] (not active), then
    [clockTimestamp >= exp + clockTolerance] (expired). *)
Definition verify (token : Token) (key : string) (algorithms : list string)
    (clockTolerance clockTimestamp : Z) : Res UnlockToken :=
  match token with
  | Malformed _ => Throw "jwt malformed"
  | Signed alg _ k payload =>
      if negb (bool_decide (alg ∈ algorithms)) then Throw "invalid algorithm"
      else if negb (bool_decide (k = key)) then Throw "invalid signature"
      else if bool_decide (clockTimestamp + clockTolerance < nbf payload)
      then Throw "jwt not active"
      else if bool_decide (exp payload + clockTolerance ≤ clockTimestamp)
      then Throw "jwt expired"
      else Ok payload
  end.

End jwt.

(** ** AuthService.ts: the unlock token *)

Module AuthService.
Section WithConfig.

Variable cfg : Config.t.

(** Set by [initialize()]: both from [config.jwt.unlockTokenSecret]. *)
Definition unlockTokenPrivateKey : string := Config.jwt_unlockTokenSecret cfg.
Definition unlockTokenPublicKey : string := Config.jwt_unlockTokenSecret cfg.

Definition generateUnlockToken
    (orderId riderId slotId shelfId siteId tenantId : string) : M jwt.Token :=
  try_catch
    (now ← gets (fun w => floor_div (w_now w) 1000);
     jti ← randomUUID;
     let tokenPayload := {|
       jti := jti;
       t_tenantId := tenantId;
       t_siteId := siteId;
       t_shelfId := shelfId;
       t_slotId := slotId;
       t_orderId := orderId;
       t_riderId := riderId;
       iat := now;
       nbf := now;
       exp := now + Config.jwt_unlockTokenTTL cfg;
     |} in
     let token := jwt.sign tokenPayload unlockTokenPrivateKey "HS256" "unlock-key-1" in
     RedisService.storeUnlockTokenJti cfg jti (Config.jwt_unlockTokenTTL cfg + 10);;
     logSecurityEvent "unlock_token_generated"
       [("jti", JStr jti); ("slotId", JStr slotId); ("orderId", JStr orderId);
        ("riderId", JStr riderId); ("ttl", JNum (Config.jwt_unlockTokenTTL cfg))];;
     mret token)
    (fun error => throw error).

Definition verifyUnlockToken (token : jwt.Token) (requestingShelfId : string)
    : M (option UnlockToken) :=
  try_catch
    (clock ← gets (fun w => floor_div (w_now w) 1000);
     decoded ← (fun w =>
       (jwt.verify token unlockTokenPublicKey ["HS256"]
          (Config.security_clockSkewToleranceSeconds cfg) clock, w));
     if negb (bool_decide (t_shelfId decoded = requestingShelfId)) then
       logSecurityEvent "unlock_token_wrong_shelf"
         [("jti", JStr (jti decoded)); ("expectedShelf", JStr requestingShelfId);
          ("tokenShelf", JStr (t_shelfId decoded))];;
       mret None
     else
       isJtiValid ← RedisService.verifyUnlockTokenJti cfg (jti decoded);
       if negb isJtiValid then
         logSecurityEvent "unlock_token_replay_attempt"
           [("jti", JStr (jti decoded)); ("shelfId", JStr requestingShelfId)];;
         mret None
       else
         RedisService.consumeUnlockTokenJti cfg (jti decoded);;
         logSecurityEvent "unlock_token_verified"
           [("jti", JStr (jti decoded)); ("slotId", JStr (t_slotId decoded));
            ("orderId", JStr (t_orderId decoded)); ("riderId", JStr (t_riderId decoded))];;
         mret (Some decoded))
    (fun error =>
       logSecurityEvent "unlock_token_verification_failed"
         [("error", JStr error); ("shelfId", JStr requestingShelfId)];;
       mret None).

(** *** Calls that overlap

    [verifyUnlockToken] waits for the store twice: for the EXISTS sent by
    [verifyUnlockTokenJti] and for the DEL sent by [consumeUnlockTokenJti].
    While a call waits for the answer to its EXISTS the event loop can start
    another call, whose EXISTS then reaches the store before the first
    call's DEL.  The definitions below are the method cut at that [await]:
    [verifyUnlockToken_check] runs it up to the answer of the EXISTS,
    [verifyUnlockToken_resume] runs it from there. *)

Inductive Checked :=
  | Answered (result : option UnlockToken)
  | Pending (decoded : UnlockToken).

Definition verifyUnlockToken_check (token : jwt.Token) (requestingShelfId : string)
    : M Checked :=
  try_catch
    (clock ← gets (fun w => floor_div (w_now w) 1000);
     decoded ← (fun w =>
       (jwt.verify token unlockTokenPublicKey ["HS256"]
          (Config.security_clockSkewToleranceSeconds cfg) clock, w));
     if negb (bool_decide (t_shelfId decoded = requestingShelfId)) then
       logSecurityEvent "unlock_token_wrong_shelf"
         [("jti", JStr (jti decoded)); ("expectedShelf", JStr requestingShelfId);
          ("tokenShelf", JStr (t_shelfId decoded))];;
       mret (Answered None)
     else
       isJtiValid ← RedisService.verifyUnlockTokenJti cfg (jti decoded);
       if negb isJtiValid then
         logSecurityEvent "unlock_token_replay_attempt"
           [("jti", JStr (jti decoded)); ("shelfId", JStr requestingShelfId)];;
         mret (Answered None)
       else
         mret (Pending decoded))
    (fun error =>
       logSecurityEvent "unlock_token_verification_failed"
         [("error", JStr error); ("shelfId", JStr requestingShelfId)];;
       mret (Answered None)).

Definition verifyUnlockToken_resume (requestingShelfId : string) (checked : Checked)
    : M (option UnlockToken) :=
  match checked with
  | Answered result => mret result
  | Pending decoded =>
      try_catch
        (RedisService.consumeUnlockTokenJti cfg (jti decoded);;
         logSecurityEvent "unlock_token_verified"
           [("jti", JStr (jti decoded)); ("slotId", JStr (t_slotId decoded));
            ("orderId", JStr (t_orderId decoded)); ("riderId", JStr (t_riderId decoded))];;
         mret (Some decoded))
        (fun error =>
           logSecurityEvent "unlock_token_verification_failed"
             [("error", JStr error); ("shelfId", JStr requestingShelfId)];;
           mret None)
  end.

(** Two calls, the second started while the first waits for the answer to
    its EXISTS: the store sees EXISTS, EXISTS, DEL, DEL. *)
Definition verifyUnlockToken_overlapped
    (token1 : jwt.Token) (shelf1 : string) (token2 : jwt.Token) (shelf2 : string)
    : M (option UnlockToken * option UnlockToken) :=
  checked1 ← verifyUnlockToken_check token1 shelf1;
  checked2 ← verifyUnlockToken_check token2 shelf2;
  result1 ← verifyUnlockToken_resume shelf1 checked1;
  result2 ← verifyUnlockToken_resume shelf2 checked2;
  mret (result1, result2).

(** [speakeasy.totp.verify({ secret, encoding, token, window })] at the
    current time: an external check, taken as a parameter. *)
Variable totp_verify : string → string → Z → Z → bool.

(** Database interaction: a placeholder in the source, it returns [null]. *)
Definition findUserById (id : string) : M (option User) :=
  mret None.

(** Staff step-up authentication for sensitive operations *)
Definition verifyStepUpAuth (userId totpCode : string) : M bool :=
  try_catch
    (user ← findUserById userId;
     match user with
     | None => mret false
     | Some user =>
         match u_totpSecret user with
         | None => mret false
         | Some secret =>
             (* [!user.totpSecret]: an empty secret is as good as none *)
             if bool_decide (secret = "") then mret false
             else
               now ← gets w_now;
               let isValid := totp_verify secret totpCode 1 now in
               (if isValid
                then logSecurityEvent "step_up_auth_success" [("userId", JStr userId)]
                else logSecurityEvent "step_up_auth_failed" [("userId", JStr userId)]);;
               mret isValid
         end
     end)
    (fun _ => mret false).

End WithConfig.
End AuthService.

(** ** EventLedgerService.ts: the audit ledger *)

Module EventLedgerService.

(** [storeEvent] only writes to the logger
    ("Implementation would insert into database"). *)
Definition storeEvent (event : SecurityEvent) : M unit :=
  mret tt.

Definition logEvent (event : SecurityEvent) : M string :=
  try_catch
    (eventId ← randomUUID;
     timestamp ← gets w_now;
     (* { id: eventId, ...event, timestamp, createdAt: timestamp } *)
     let eventRecord := {|
       ev_id := match ev_id event with Some i => Some i | None => Some eventId end;
       ev_type := ev_type event;
       ev_tenantId := ev_tenantId event;
       ev_siteId := ev_siteId event;
       ev_shelfId := ev_shelfId event;
       ev_slotId := ev_slotId event;
       ev_orderId := ev_orderId event;
       ev_riderId := ev_riderId event;
       ev_userId := ev_userId event;
       ev_deviceId := ev_deviceId event;
       ev_metadata := ev_metadata event;
       ev_timestamp := Some timestamp;
       ev_createdAt := Some timestamp;
     |} in
     storeEvent eventRecord;;
     mret eventId)
    (fun error => throw error).

End EventLedgerService.

(** ** MQTTService.ts and DeviceService.ts: command dispatch *)

Module MQTTService.

Definition publishCommand (deviceId : string) (command : DeviceCommand) : M unit :=
  isConnected ← gets w_mqtt_connected;
  if negb isConnected then throw "MQTT client not connected"
  else
    let topic := "devices/" +:+ deviceId +:+ "/commands" in
    (* this.client.publishAsync(topic, payload, { qos: 1, retain: false }) *)
    fun w =>
      if w_fault w IoPublish then (Throw "mqtt: publish rejected", w)
      else (Ok tt, set_published (w_published w ++ [(topic, command)]) w).

End MQTTService.

Module DeviceService.

(** [Math.random().toString(36).substr(2, 9)] *)
Definition randomSuffix : M string :=
  fun w => (Ok (pretty (w_entropy w)), set_entropy (N.succ (w_entropy w)) w).

Definition sendSlotLockCommand (shelfId slotId : string) : M unit :=
  try_catch
    (now ← gets w_now;
     rnd ← randomSuffix;
     let command := {|
       c_id := "cmd_" +:+ pretty now +:+ "_" +:+ rnd;
       c_type := lock_slot;
       c_deviceId := shelfId;
       c_slotId := Some slotId;
       c_payload := [("slotId", JStr slotId)];
       c_createdAt := now;
       c_expiresAt := now + 30000;
     |} in
     MQTTService.publishCommand shelfId command)
    (fun error => throw error).

Definition sendEmergencyUnlockCommand (shelfId slotId : string) : M unit :=
  try_catch
    (now ← gets w_now;
     rnd ← randomSuffix;
     let command := {|
       c_id := "emergency_" +:+ pretty now +:+ "_" +:+ rnd;
       c_type := emergency_unlock;
       c_deviceId := shelfId;
       c_slotId := Some slotId;
       c_payload := [("slotId", JStr slotId); ("emergency", JBool true)];
       c_createdAt := now;
       c_expiresAt := now + 60000;
     |} in
     MQTTService.publishCommand shelfId command)
    (fun error => throw error).

End DeviceService.

(** ** OrderOrchestratorService.ts *)

Module OrderOrchestratorService.

Record SlotAssignmentRequest := {
  ar_orderId : string;
  ar_siteId : string;
  ar_tenantId : string;
  ar_staffId : string;
  ar_preferredSlotId : option string;
}.

Record UnlockRequest := {
  ur_orderId : string;
  ur_riderId : string;
  ur_slotId : option string;
  ur_deviceFingerprint : option string;
}.

Record AssignmentResult := {
  as_slotId : string;
  as_success : bool;
  as_qrCode : option string;
  as_otpCode : option string;
}.

Record UnlockResult := {
  un_unlockToken : option jwt.Token;
  un_slotId : option string;
  un_success : bool;
  un_error : option string;
}.

Definition unlock_failure (msg : string) : UnlockResult :=
  {| un_unlockToken := None; un_slotId := None; un_success := false; un_error := Some msg |}.

Definition opt_js (o : option string) : JsVal :=
  match o with Some x => JStr x | None => JUndefined end.

(** The truthiness test [if (request.preferredSlotId)]: an empty string is
    as good as none. *)
Definition truthy (o : option string) : option string :=
  match o with
  | Some x => if bool_decide (x = "") then None else Some x
  | None => None
  end.

(** [JSON.stringify] of a string without characters that need escaping:
    the string between double quotes. *)
Definition json_quote (x : string) : string :=
  let quote := Ascii.ascii_of_nat 34 in
  String quote (x +:+ String quote EmptyString).

Section WithConfig.

Variable cfg : Config.t.
Variable totp_verify : string → string → Z → Z → bool.

(** Two builtins, taken as parameters: [String.prototype.slice(start)],
    which counts UTF-16 code units, and
    [Buffer.from(JSON.stringify(obj)).toString('base64')] of an object given
    by its members. *)
Variable str_slice : Z → string → string.
Variable base64_json : Fields → string.

(** *** Private helper methods

    The database helpers are placeholders in the source ("Implementation
    would query database", "would update database"): the readers return
    [null] and the writers only write to the logger. *)

Definition findAvailableSlot (siteId tenantId : string) : M (option Slot) :=
  mret None.

Definition getOrder (orderId : string) : M (option Order) :=
  mret None.

Definition getSlot (slotId : string) : M (option Slot) :=
  mret None.

Definition getOrderAssignedSlot (orderId : string) : M (option Slot) :=
  mret None.

Definition updateSlotState (slotId : string) (state : SlotState)
    (orderId : option string) : M unit :=
  mret tt.

Definition updateOrderStatus (orderId : string) (status : OrderStatus)
    (slotId : option string) : M unit :=
  mret tt.

(** [orderId.slice(-8)] *)
Definition generateOrderHash (orderId : string) : string := str_slice (-8) orderId.

(** The base64 text of [{ orderId, timestamp: Date.now(), hash }]. *)
Definition generateOrderQRCode (orderId : string) : M string :=
  timestamp ← gets w_now;
  mret (base64_json [("orderId", JStr orderId); ("timestamp", JNum timestamp);
                     ("hash", JStr (generateOrderHash orderId))]).

(** [Math.floor(100000 + Math.random() * 900000).toString()], cached for
    30 minutes. *)
Definition generateOrderOTP (orderId : string) : M string :=
  r ← (fun w => (Ok (Z.of_N (w_entropy w) `mod` 900000),
                 set_entropy (N.succ (w_entropy w)) w));
  let otp := pretty (100000 + r) in
  RedisService.setCache cfg ("otp:" +:+ orderId) (json_quote otp) 1800;;
  mret otp.

(** "For now, return true as placeholder". *)
Definition verifyRiderForOrder (riderId : string) (order : Order) : M bool :=
  mret true.

(** *** assignOrderToSlot *)

(** The statements of the inner [try] block, after the reservation. *)
Definition assign_commit (request : SlotAssignmentRequest) (order : Order)
    (targetSlot : Slot) : M AssignmentResult :=
  updateSlotState (s_id targetSlot) reserved (Some (o_id order));;
  updateOrderStatus (o_id order) assigned (Some (s_id targetSlot));;
  qrCode ← generateOrderQRCode (o_id order);
  otpCode ← generateOrderOTP (o_id order);
  EventLedgerService.logEvent {|
    ev_id := None;
    ev_type := "slot_assigned";
    ev_tenantId := ar_tenantId request;
    ev_siteId := Some (ar_siteId request);
    ev_shelfId := Some (s_shelfId targetSlot);
    ev_slotId := Some (s_id targetSlot);
    ev_orderId := Some (o_id order);
    ev_riderId := None;
    ev_userId := Some (ar_staffId request);
    ev_deviceId := None;
    ev_metadata := [("slotIndex", JNum (s_index targetSlot));
                    ("platform", JStr (Platform_str (o_platform order)));
                    ("externalRef", JStr (o_externalRef order))];
    ev_timestamp := None;
    ev_createdAt := None;
  |};;
  DeviceService.sendSlotLockCommand (s_shelfId targetSlot) (s_id targetSlot);;
  logAuditEvent "slot_assigned" "order" (ar_staffId request)
    [("orderId", JStr (o_id order)); ("slotId", JStr (s_id targetSlot));
     ("siteId", JStr (ar_siteId request))];;
  mret {| as_slotId := s_id targetSlot; as_success := true;
          as_qrCode := Some qrCode; as_otpCode := Some otpCode |}.

(** Slot selection: the preferred slot, or the next available one. *)
Definition assign_select (request : SlotAssignmentRequest) : M Slot :=
  match truthy (ar_preferredSlotId request) with
  | Some preferredSlotId =>
      targetSlot ← getSlot preferredSlotId;
      match targetSlot with
      | None => throw "Preferred slot is not available"
      | Some targetSlot =>
          if negb (bool_decide (s_state targetSlot = empty)) || negb (s_isActive targetSlot)
          then throw "Preferred slot is not available"
          else mret targetSlot
      end
  | None =>
      targetSlot ← findAvailableSlot (ar_siteId request) (ar_tenantId request);
      match targetSlot with
      | None => throw "No available slots"
      | Some targetSlot => mret targetSlot
      end
  end.

(** From the reservation on: the reservation, the inner [try] block and
    its [catch]. *)
Definition assign_reserve (request : SlotAssignmentRequest) (order : Order)
    (targetSlot : Slot) : M AssignmentResult :=
  reservationSuccessful ←
    RedisService.reserveSlot cfg (s_id targetSlot) (o_id order)
      (Config.business_slotReservationTTL cfg);
  if negb reservationSuccessful
  then throw "Slot reservation failed - slot taken by another request"
  else
    try_catch
      (assign_commit request order targetSlot)
      (fun error =>
         (* Rollback slot reservation on failure *)
         RedisService.releaseSlot cfg (s_id targetSlot);;
         throw error).

(** The body of the outer [try]; the error it throws is what the outer
    [catch] hands to [logger.error]. *)
Definition assignOrderToSlot_try (request : SlotAssignmentRequest) : M AssignmentResult :=
  order ← getOrder (ar_orderId request);
  match order with
  | None => throw "Order not found"
  | Some order =>
      if negb (bool_decide (o_status order = prepared))
      then throw ("Order status " +:+ OrderStatus_str (o_status order)
                  +:+ " is not valid for assignment")
      else if negb (bool_decide (o_tenantId order = ar_tenantId request))
      then throw "Order does not belong to this tenant"
      else
        targetSlot ← assign_select request;
        assign_reserve request order targetSlot
  end.

Definition assignOrderToSlot (request : SlotAssignmentRequest) : M AssignmentResult :=
  try_catch
    (assignOrderToSlot_try request)
    (fun error =>
       mret {| as_slotId := ""; as_success := false;
               as_qrCode := None; as_otpCode := None |}).

(** *** requestUnlock *)

Definition requestUnlock (request : UnlockRequest) : M UnlockResult :=
  try_catch
    (order ← getOrder (ur_orderId request);
     match order with
     | None => mret (unlock_failure "Order not found")
     | Some order =>
         if negb (bool_decide (o_status order = assigned))
         then mret (unlock_failure ("Order status " +:+ OrderStatus_str (o_status order)
                                    +:+ " is not valid for pickup"))
         else
           slot ← getOrderAssignedSlot (o_id order);
           match slot with
           | None => mret (unlock_failure "No slot assigned to this order")
           | Some slot =>
               if negb (bool_decide (s_state slot = reserved))
                  && negb (bool_decide (s_state slot = occupied))
               then mret (unlock_failure ("Slot state " +:+ SlotState_str (s_state slot)
                                          +:+ " is not valid for unlock"))
               else
                 (* Rate limiting per rider *)
                 let rateLimitKey := "unlock_attempts:" +:+ ur_riderId request in
                 attempts ← RedisService.incrementRateLimit cfg rateLimitKey 60000;
                 if bool_decide (Config.business_maxUnlockAttempts cfg < attempts) then
                   EventLedgerService.logEvent {|
                     ev_id := None;
                     ev_type := "unlock_rate_limited";
                     ev_tenantId := o_tenantId order;
                     ev_siteId := None;
                     ev_shelfId := None;
                     ev_slotId := Some (s_id slot);
                     ev_orderId := Some (o_id order);
                     ev_riderId := Some (ur_riderId request);
                     ev_userId := None;
                     ev_deviceId := None;
                     ev_metadata := [("attempts", JNum attempts)];
                     ev_timestamp := None;
                     ev_createdAt := None;
                   |};;
                   mret (unlock_failure "Too many unlock attempts. Please wait.")
                 else
                   isValidRider ← verifyRiderForOrder (ur_riderId request) order;
                   if negb isValidRider then
                     EventLedgerService.logEvent {|
                       ev_id := None;
                       ev_type := "unauthorized_unlock_attempt";
                       ev_tenantId := o_tenantId order;
                       ev_siteId := None;
                       ev_shelfId := None;
                       ev_slotId := Some (s_id slot);
                       ev_orderId := Some (o_id order);
                       ev_riderId := Some (ur_riderId request);
                       ev_userId := None;
                       ev_deviceId := None;
                       ev_metadata := [("reason", JStr "rider_not_authorized")];
                       ev_timestamp := None;
                       ev_createdAt := None;
                     |};;
                     mret (unlock_failure "Rider not authorized for this order")
                   else
                     unlockToken ← AuthService.generateUnlockToken cfg
                       (o_id order) (ur_riderId request) (s_id slot)
                       (s_shelfId slot) (s_siteId slot) (o_tenantId order);
                     updateSlotState (s_id slot) unlocking None;;
                     EventLedgerService.logEvent {|
                       ev_id := None;
                       ev_type := "unlock_requested";
                       ev_tenantId := o_tenantId order;
                       ev_siteId := Some (s_siteId slot);
                       ev_shelfId := Some (s_shelfId slot);
                       ev_slotId := Some (s_id slot);
                       ev_orderId := Some (o_id order);
                       ev_riderId := Some (ur_riderId request);
                       ev_userId := None;
                       ev_deviceId := None;
                       ev_metadata := [("deviceFingerprint", opt_js (ur_deviceFingerprint request));
                                       ("slotIndex", JNum (s_index slot))];
                       ev_timestamp := None;
                       ev_createdAt := None;
                     |};;
                     logAuditEvent "unlock_requested" "order" (ur_riderId request)
                       [("orderId", JStr (o_id order)); ("slotId", JStr (s_id slot))];;
                     mret {| un_unlockToken := Some unlockToken;
                             un_slotId := Some (s_id slot);
                             un_success := true;
                             un_error := None |}
           end
     end)
    (fun error => mret (unlock_failure "Internal server error")).

(** *** The delayed reset *)

Definition resetSlotAfterPickup (slotId : string) : M unit :=
  try_catch
    (slot ← getSlot slotId;
     match slot with
     | Some slot =>
         if bool_decide (s_state slot = open) then
           updateSlotState slotId empty None;;
           RedisService.releaseSlot cfg slotId
         else mret tt
     | None => mret tt
     end)
    (fun error => mret tt).

(** [setTimeout(async () => { await this.resetSlotAfterPickup(slotId) }, ms)]:
    the pending call is recorded with its due time. *)
Definition setTimeout_reset (slotId : string) (ms : Z) : M unit :=
  modify (fun w => set_timers (w_timers w ++ [(w_now w + ms, slotId)]) w).

(** *** confirmUnlock *)

Definition confirmUnlock (slotId orderId riderId : string) : M unit :=
  try_catch
    (updateSlotState slotId open None;;
     updateOrderStatus orderId picked_up None;;
     slot ← getSlot slotId;
     order ← getOrder orderId;
     match slot, order with
     | Some slot, Some order =>
         now ← gets w_now;
         EventLedgerService.logEvent {|
           ev_id := None;
           ev_type := "parcel_picked_up";
           ev_tenantId := o_tenantId order;
           ev_siteId := Some (s_siteId slot);
           ev_shelfId := Some (s_shelfId slot);
           ev_slotId := Some (s_id slot);
           ev_orderId := Some (o_id order);
           ev_riderId := Some riderId;
           ev_userId := None;
           ev_deviceId := None;
           ev_metadata := [("slotIndex", JNum (s_index slot));
                           ("platform", JStr (Platform_str (o_platform order)));
                           ("pickupDuration", JNum (now - default 0 (s_reservedAt slot)))];
           ev_timestamp := None;
           ev_createdAt := None;
         |};;
         logAuditEvent "parcel_picked_up" "order" riderId
           [("orderId", JStr orderId); ("slotId", JStr slotId)]
     | _, _ => mret tt
     end;;
     setTimeout_reset slotId 30000)
    (fun error => throw error).

(** *** handleUnlockFailure *)

Definition handleUnlockFailure (slotId orderId riderId reason : string) : M unit :=
  try_catch
    (slot ← getSlot slotId;
     match slot with
     | Some slot =>
         let newState := if bool_decide (s_state slot = unlocking)
                         then occupied else s_state slot in
         updateSlotState slotId newState None
     | None => mret tt
     end;;
     order ← getOrder orderId;
     match slot, order with
     | Some slot, Some order =>
         EventLedgerService.logEvent {|
           ev_id := None;
           ev_type := "unlock_failed";
           ev_tenantId := o_tenantId order;
           ev_siteId := Some (s_siteId slot);
           ev_shelfId := Some (s_shelfId slot);
           ev_slotId := Some slotId;
           ev_orderId := Some orderId;
           ev_riderId := Some riderId;
           ev_userId := None;
           ev_deviceId := None;
           ev_metadata := [("reason", JStr reason); ("slotIndex", JNum (s_index slot))];
           ev_timestamp := None;
           ev_createdAt := None;
         |};;
         mret tt
     | _, _ => mret tt
     end)
    (fun error => mret tt).

(** *** emergencyUnlock *)

Definition emergencyUnlock (slotId staffId reason totpCode : string) : M bool :=
  try_catch
    (isValidStepUp ← AuthService.verifyStepUpAuth totp_verify staffId totpCode;
     if negb isValidStepUp then mret false
     else
       slot ← getSlot slotId;
       match slot with
       | None => mret false
       | Some slot =>
           DeviceService.sendEmergencyUnlockCommand (s_shelfId slot) slotId;;
           updateSlotState slotId open None;;
           EventLedgerService.logEvent {|
             ev_id := None;
             ev_type := "emergency_unlock";
             ev_tenantId := s_tenantId slot;
             ev_siteId := Some (s_siteId slot);
             ev_shelfId := Some (s_shelfId slot);
             ev_slotId := Some slotId;
             ev_orderId := s_orderId slot;
             ev_riderId := None;
             ev_userId := Some staffId;
             ev_deviceId := None;
             ev_metadata := [("reason", JStr reason); ("slotIndex", JNum (s_index slot))];
             ev_timestamp := None;
             ev_createdAt := None;
           |};;
           logAuditEvent "emergency_unlock" "slot" staffId
             [("slotId", JStr slotId); ("reason", JStr reason)];;
           mret true
       end)
    (fun error => mret false).

End WithConfig.
End OrderOrchestratorService.

(** * Further services *)

(** ** MQTTService.ts: topic patterns and the subscription registry *)

Module MQTTTopics.

(** [s.split('/')]: the pieces between the separators; an empty string has
    one empty piece. *)
Fixpoint split (sep : Ascii.ascii) (s : string) : list string :=
  match s with
  | EmptyString => [EmptyString]
  | String c s' =>
      if Ascii.eqb c sep then EmptyString :: split sep s'
      else
        match split sep s' with
        | piece :: pieces => String c piece :: pieces
        | [] => [String c EmptyString]
        end
  end.

(** The character ['/'] (code 47). *)
Definition slash : Ascii.ascii := Ascii.ascii_of_nat 47.

(** The [for] loop of [topicMatches], over both lists at once (they have
    the same length when it runs). *)
Fixpoint partsMatch (patternParts topicParts : list string) : bool :=
  match patternParts, topicParts with
  | p :: ps, t :: ts =>
      if negb (bool_decide (p = "+")) && negb (bool_decide (p = t)) then false
      else partsMatch ps ts
  | _, _ => true
  end.

Definition topicMatches (topic pattern : string) : bool :=
  let topicParts := split slash topic in
  let patternParts := split slash pattern in
  if negb (bool_decide (length patternParts = length topicParts)) then false
  else partsMatch patternParts topicParts.

(** [topic.split('/')[1]], as the device-event subscription reads the device
    id off the topic. *)
Definition deviceIdOf (topic : string) : option string := split slash topic !! 1%nat.

End MQTTTopics.

Module MQTTRegistry.

(** The client's own state: the connection flag, the [subscriptions] map
    (a JavaScript [Map]: insertion order, one entry per pattern), and what
    the broker has been asked to deliver.  The broker may reject a
    subscription or an unsubscription.  A callback is known by its name; it
    may throw. *)
Record Callback := { cb_name : string; cb_throws : bool }.

Record Client := {
  isConnected : bool;
  subscriptions : list (string * Callback);
  brokerSubscriptions : list string;
  brokerRejects : string → bool;
  brokerRejectsUnsubscribe : string → bool;
}.

(** [Map.prototype.set]: an existing key keeps its place. *)
Fixpoint map_set (key : string) (cb : Callback) (m : list (string * Callback))
    : list (string * Callback) :=
  match m with
  | [] => [(key, cb)]
  | (k, v) :: m' =>
      if bool_decide (k = key) then (k, cb) :: m' else (k, v) :: map_set key cb m'
  end.

(** [Map.prototype.delete] *)
Definition map_delete (key : string) (m : list (string * Callback))
    : list (string * Callback) :=
  List.filter (fun kv => negb (bool_decide (kv.1 = key))) m.

Definition with_subscriptions (s : list (string * Callback)) (c : Client) : Client :=
  {| isConnected := isConnected c; subscriptions := s;
     brokerSubscriptions := brokerSubscriptions c; brokerRejects := brokerRejects c;
     brokerRejectsUnsubscribe := brokerRejectsUnsubscribe c |}.

Definition with_broker (b : list string) (c : Client) : Client :=
  {| isConnected := isConnected c; subscriptions := subscriptions c;
     brokerSubscriptions := b; brokerRejects := brokerRejects c;
     brokerRejectsUnsubscribe := brokerRejectsUnsubscribe c |}.

Definition with_connected (b : bool) (c : Client) : Client :=
  {| isConnected := b; subscriptions := subscriptions c;
     brokerSubscriptions := brokerSubscriptions c; brokerRejects := brokerRejects c;
     brokerRejectsUnsubscribe := brokerRejectsUnsubscribe c |}.

(** [this.client.subscribeAsync(topicPattern, { qos: 1 })] *)
Definition subscribeAsync (topicPattern : string) (c : Client) : Res unit * Client :=
  if brokerRejects c topicPattern then (Throw "mqtt: subscribe rejected", c)
  else (Ok tt, with_broker (brokerSubscriptions c ++ [topicPattern]) c).

Definition subscribe (topicPattern : string) (callback : Callback) (c : Client)
    : Res unit * Client :=
  if negb (isConnected c) then
    (* Store subscription for later when connected *)
    (Ok tt, with_subscriptions (map_set topicPattern callback (subscriptions c)) c)
  else
    match subscribeAsync topicPattern c with
    | (Ok _, c') =>
        (Ok tt, with_subscriptions (map_set topicPattern callback (subscriptions c')) c')
    | (Throw e, c') => (Throw e, c')
    end.

(** [this.client.unsubscribeAsync(topicPattern)] *)
Definition unsubscribeAsync (topicPattern : string) (c : Client) : Res unit * Client :=
  if brokerRejectsUnsubscribe c topicPattern then (Throw "mqtt: unsubscribe rejected", c)
  else (Ok tt,
        with_broker
          (List.filter (fun p => negb (bool_decide (p = topicPattern)))
             (brokerSubscriptions c)) c).

(** [unsubscribe]: the stored entry is deleted after the broker has been
    told, when connected; a rejection leaves it in place. *)
Definition unsubscribe (topicPattern : string) (c : Client) : Res unit * Client :=
  match (if isConnected c then unsubscribeAsync topicPattern c else (Ok tt, c)) with
  | (Ok _, c') =>
      (Ok tt, with_subscriptions (map_delete topicPattern (subscriptions c')) c')
  | (Throw e, c') => (Throw e, c')
  end.

(** [resubscribeToTopics]: every stored pattern, a failure is logged and
    the loop goes on. *)
Fixpoint resubscribe_each (patterns : list string) (c : Client) : Client :=
  match patterns with
  | [] => c
  | p :: ps =>
      match subscribeAsync p c with
      | (_, c') => resubscribe_each ps c'
      end
  end.

Definition resubscribeToTopics (c : Client) : Client :=
  resubscribe_each (map fst (subscriptions c)) c.

(** The ['connect'] event handler. *)
Definition on_connect (c : Client) : Client :=
  resubscribeToTopics (with_connected true c).

(** [handleMessage]: the callbacks invoked, in order.  [payload] is the
    parsed message, or [None] when [JSON.parse] throws.  A callback that
    throws ends the loop (the exception leaves the [for] and is logged). *)
Fixpoint dispatch (topic : string) (subs : list (string * Callback)) : list string :=
  match subs with
  | [] => []
  | (pattern, callback) :: subs' =>
      if MQTTTopics.topicMatches topic pattern then
        if cb_throws callback then [cb_name callback]
        else cb_name callback :: dispatch topic subs'
      else dispatch topic subs'
  end.

Definition handleMessage (topic : string) (payload : option string) (c : Client)
    : list string :=
  match payload with
  | None => []
  | Some _ => dispatch topic (subscriptions c)
  end.

End MQTTRegistry.

(** ** RedisService.ts: the remaining key families *)

Module RedisKeys.
Section WithConfig.

Variable cfg : Config.t.

(** Magic link token management *)
Definition storeMagicLinkToken (token riderId : string) : M unit :=
  let key := RedisService.getKey cfg ["magic_link"; token] in
  RedisService.client_setEx key 900 (Redis.Str riderId).

Definition verifyMagicLinkToken (token : string) : M bool :=
  let key := RedisService.getKey cfg ["magic_link"; token] in
  exists_ ← RedisService.client_exists key;
  mret (bool_decide (exists_ = 1)).

Definition invalidateMagicLinkToken (token : string) : M unit :=
  let key := RedisService.getKey cfg ["magic_link"; token] in
  RedisService.client_del key.

(** Rider session management *)
Definition setRiderSession (riderId deviceId sessionToken : string) : M unit :=
  let key := RedisService.getKey cfg ["rider_session"; riderId; deviceId] in
  RedisService.client_setEx key 1800 (Redis.Str sessionToken).

Definition getRiderSession (riderId deviceId : string) : M (option Redis.Val) :=
  let key := RedisService.getKey cfg ["rider_session"; riderId; deviceId] in
  RedisService.client_get key.

Definition deleteRiderSession (riderId deviceId : string) : M unit :=
  let key := RedisService.getKey cfg ["rider_session"; riderId; deviceId] in
  RedisService.client_del key.

(** [parseInt(current, 10)] on a value that is not an integer already: a
    JavaScript builtin, taken as a parameter ([None] is [NaN]). *)
Variable parseInt10 : string → option Z.

(** [getRateLimit]: [current ? parseInt(current, 10) : 0]; an absent key and
    an empty string are falsy. *)
Definition getRateLimit (key : string) : M (option Z) :=
  let rateLimitKey := RedisService.getKey cfg ["rate_limit"; key] in
  current ← RedisService.client_get rateLimitKey;
  mret (match current with
        | None => Some 0
        | Some (Redis.Int n) => Some n
        | Some (Redis.Str s) => if bool_decide (s = "") then Some 0 else parseInt10 s
        end).

(** Device status tracking; the status is stored as its JSON text. *)
Definition setDeviceStatus (deviceId statusJson : string) (ttl : Z) : M unit :=
  let key := RedisService.getKey cfg ["device_status"; deviceId] in
  RedisService.client_setEx key ttl (Redis.Str statusJson).

Definition getDeviceStatus (deviceId : string) : M (option Redis.Val) :=
  let key := RedisService.getKey cfg ["device_status"; deviceId] in
  RedisService.client_get key.

(** Caching *)
Definition getCache (key : string) : M (option Redis.Val) :=
  let cacheKey := RedisService.getKey cfg ["cache"; key] in
  RedisService.client_get cacheKey.

Definition deleteCache (key : string) : M unit :=
  let cacheKey := RedisService.getKey cfg ["cache"; key] in
  RedisService.client_del cacheKey.

End WithConfig.
End RedisKeys.

(** ** DeviceService.ts: status requests and device events *)

Module DeviceEvents.

(** A device event is whatever [JSON.parse] made of the MQTT payload
    ([event: any]): any JSON value, [null] included.  A number is kept as
    its text. *)
Unset Elimination Schemes.
Inductive Json :=
  | JsonNull
  | JsonBool (b : bool)
  | JsonNumber (literal : string)
  | JsonString (s : string)
  | JsonArray (items : list Json)
  | JsonObject (members : list (string * Json)).
Set Elimination Schemes.

(** [event[name]] for an event that is not [null], and for a name that is
    neither an index nor a builtin property: a member of an object (the last
    one of that name in the text), [undefined] ([None]) otherwise. *)
Definition member (name : string) (event : Json) : option Json :=
  match event with
  | JsonObject members =>
      snd <$> List.find (fun kv => bool_decide (kv.1 = name)) (rev members)
  | _ => None
  end.

Section WithConfig.

Variable cfg : Config.t.

(** Two object literals whose members come out of JavaScript's spread,
    template literal and [||], taken as parameters:
    [JSON.stringify({ lastSeen: new Date(), ...event })] at the given time,
    and, for an event that is not [null], the argument of [logEvent],
    [{ type: `device_${event.type}`, deviceId, metadata: event,
       tenantId: event.tenantId || 'unknown' }]. *)
Variable status_text : Z → Json → string.
Variable ledger_event : string → Json → SecurityEvent.

Definition sendStatusRequest (deviceId : string) : M unit :=
  try_catch
    (now ← gets w_now;
     let command := {|
       c_id := "status_" +:+ pretty now;
       c_type := status_request;
       c_deviceId := deviceId;
       c_slotId := None;
       c_payload := [];
       c_createdAt := now;
       c_expiresAt := now + 10000;
     |} in
     MQTTService.publishCommand deviceId command)
    (fun error => throw error).

(** The handlers of unlock and door events only write to the logger. *)
Definition handleUnlockSuccess (deviceId : string) (event : Json) : M unit := mret tt.
Definition handleUnlockFailed (deviceId : string) (event : Json) : M unit := mret tt.
Definition handleDoorEvent (deviceId : string) (event : Json) : M unit := mret tt.

(** Disable remote unlocks until manual reset: a flag cached for 24 hours. *)
Definition handleTamperDetected (deviceId : string) (event : Json) : M unit :=
  RedisService.setCache cfg ("device_tamper:" +:+ deviceId) "true" (24 * 3600).

(** Reading [event.type] of [null] throws a [TypeError]; the spread of
    [null] before it does not. *)
Definition handleDeviceEvent (deviceId : string) (event : Json) : M unit :=
  try_catch
    (now ← gets w_now;
     (* default ttl 300 *)
     RedisKeys.setDeviceStatus cfg deviceId (status_text now event) 300;;
     match event with
     | JsonNull => throw "TypeError: Cannot read properties of null (reading 'type')"
     | _ =>
         EventLedgerService.logEvent (ledger_event deviceId event);;
         (* switch (event.type), by strict equality *)
         match member "type" event with
         | Some (JsonString t) =>
             if bool_decide (t = "unlock_success") then handleUnlockSuccess deviceId event
             else if bool_decide (t = "unlock_failed") then handleUnlockFailed deviceId event
             else if bool_decide (t = "tamper_detected")
             then handleTamperDetected deviceId event
             else if bool_decide (t = "door_opened") || bool_decide (t = "door_closed")
             then handleDoorEvent deviceId event
             else mret tt
         | _ => mret tt
         end
     end)
    (fun error => mret tt).

End WithConfig.
End DeviceEvents.

(** ** The stand-alone demonstration server (in-memory mock data) *)

Module SimpleServer.

Record MockSlot := {
  ms_id : Z;
  ms_status : string;
  ms_orderId : option string;
  ms_lockerNumber : Z;
}.

Record MockOrder := {
  mo_id : string;
  mo_status : string;
  mo_slotId : Z;
  mo_riderId : string;
}.

Record MockEvent := {
  me_id : Z;
  me_timestamp : Z;
  me_type : string;
  me_description : string;
  me_metadata : Fields;
}.

Record MockData := {
  slots : list MockSlot;
  orders : list MockOrder;
  events : list MockEvent;
}.

(** [mockData] as the module is loaded at time [t0]. *)
Definition mockData (t0 : Z) : MockData := {|
  slots := [
    {| ms_id := 1; ms_status := "occupied"; ms_orderId := Some "ORD001"; ms_lockerNumber := 1 |};
    {| ms_id := 2; ms_status := "available"; ms_orderId := None; ms_lockerNumber := 2 |};
    {| ms_id := 3; ms_status := "occupied"; ms_orderId := Some "ORD003"; ms_lockerNumber := 3 |};
    {| ms_id := 4; ms_status := "available"; ms_orderId := None; ms_lockerNumber := 4 |};
    {| ms_id := 5; ms_status := "maintenance"; ms_orderId := None; ms_lockerNumber := 5 |} ];
  orders := [
    {| mo_id := "ORD001"; mo_status := "delivered"; mo_slotId := 1; mo_riderId := "rider123" |};
    {| mo_id := "ORD003"; mo_status := "delivered"; mo_slotId := 3; mo_riderId := "rider456" |} ];
  events := [
    {| me_id := 1; me_timestamp := t0; me_type := "SLOT_ASSIGNED";
       me_description := "Order ORD001 assigned to slot 1";
       me_metadata := [("orderId", JStr "ORD001"); ("slotId", JNum 1)] |};
    {| me_id := 2; me_timestamp := t0; me_type := "DOOR_OPENED";
       me_description := "Slot 1 door opened by customer";
       me_metadata := [("slotId", JNum 1); ("actor", JStr "customer")] |} ];
|}.

(** What a handler sends. *)
Inductive Response :=
  | Data (slot : MockSlot)
  | Opened (message : string) (slot : MockSlot)
  | Error (statusCode : Z) (error : string).

(** [mockData.slots.find(s => s.id === slotId)]; [slotId] is the result of
    [parseInt(req.params.id)], [None] for [NaN]. *)
Definition findSlot (slotId : option Z) (d : MockData) : option MockSlot :=
  match slotId with
  | Some i => List.find (fun s => bool_decide (ms_id s = i)) (slots d)
  | None => None
  end.

(** Assignments to the members of the object that [find] returned: the
    first slot with that id changes, in place. *)
Fixpoint update_found (i : Z) (f : MockSlot → MockSlot) (l : list MockSlot)
    : list MockSlot :=
  match l with
  | [] => []
  | s :: l' => if bool_decide (ms_id s = i) then f s :: l' else s :: update_found i f l'
  end.

Definition with_slots (l : list MockSlot) (d : MockData) : MockData :=
  {| slots := l; orders := orders d; events := events d |}.

(** [mockData.events.push({ id: mockData.events.length + 1, ... })] *)
Definition push_event (now : Z) (type description : string) (metadata : Fields)
    (d : MockData) : MockData :=
  {| slots := slots d; orders := orders d;
     events := events d ++ [{| me_id := Z.of_nat (length (events d)) + 1;
                               me_timestamp := now; me_type := type;
                               me_description := description;
                               me_metadata := metadata |}] |}.

(** The template literal of a body member that may be missing. *)
Definition template (x : option string) : string :=
  match x with Some s => s | None => "undefined" end.

(** [POST /api/slots/:id/assign] *)
Definition assign (now : Z) (slotId : option Z) (orderId : option string) (d : MockData)
    : Response * MockData :=
  match findSlot slotId d, slotId with
  | Some slot, Some i =>
      if negb (bool_decide (ms_status slot = "available"))
      then (Error 400 "Slot not available", d)
      else
        let slot' := {| ms_id := ms_id slot; ms_status := "occupied";
                        ms_orderId := orderId; ms_lockerNumber := ms_lockerNumber slot |} in
        let d1 := with_slots (update_found i (fun _ => slot') (slots d)) d in
        let d2 := push_event now "SLOT_ASSIGNED"
                    ("Order " +:+ template orderId +:+ " assigned to slot " +:+ pretty i)
                    [("orderId", match orderId with Some o => JStr o | None => JUndefined end);
                     ("slotId", JNum i)] d1 in
        (Data slot', d2)
  | _, _ => (Error 404 "Slot not found", d)
  end.

(** [actor || 'unknown'] *)
Definition actor_or_unknown (actor : option string) : string :=
  match actor with
  | Some a => if bool_decide (a = "") then "unknown" else a
  | None => "unknown"
  end.

(** [POST /api/slots/:id/open] *)
Definition open_slot (now : Z) (slotId : option Z) (actor : option string) (d : MockData)
    : Response * MockData :=
  match findSlot slotId d, slotId with
  | Some slot, Some i =>
      let d1 := push_event now "DOOR_OPENED"
                  ("Slot " +:+ pretty i +:+ " door opened by " +:+ actor_or_unknown actor)
                  [("slotId", JNum i); ("actor", JStr (actor_or_unknown actor))] d in
      if bool_decide (actor = Some "customer") then
        (* If customer opens, mark as collected *)
        let slot' := {| ms_id := ms_id slot; ms_status := "available";
                        ms_orderId := None; ms_lockerNumber := ms_lockerNumber slot |} in
        let d2 := with_slots (update_found i (fun _ => slot') (slots d1)) d1 in
        let d3 := push_event now "ORDER_COLLECTED"
                    ("Order collected from slot " +:+ pretty i)
                    [("slotId", JNum i); ("actor", JStr "customer")] d2 in
        (Opened "Slot opened successfully" slot', d3)
      else (Opened "Slot opened successfully" slot, d1)
  | _, _ => (Error 404 "Slot not found", d)
  end.

(** [GET /api/stats] *)
Record Stats := {
  totalSlots : nat;
  occupiedSlots : nat;
  availableSlots : nat;
  maintenanceSlots : nat;
  totalOrders : nat;
  deliveredToday : nat;
}.

Definition count_status (status : string) (d : MockData) : nat :=
  length (List.filter (fun s => bool_decide (ms_status s = status)) (slots d)).

Definition stats (d : MockData) : Stats := {|
  totalSlots := length (slots d);
  occupiedSlots := count_status "occupied" d;
  availableSlots := count_status "available" d;
  maintenanceSlots := count_status "maintenance" d;
  totalOrders := length (orders d);
  deliveredToday :=
    length (List.filter (fun o => bool_decide (mo_status o = "delivered")) (orders d));
|}.

(** The requests that change the data, and a server run. *)
Inductive Request :=
  | Assign (slotId : option Z) (orderId : option string)
  | Open (slotId : option Z) (actor : option string).

Definition handle (now : Z) (req : Request) (d : MockData) : Response * MockData :=
  match req with
  | Assign slotId orderId => assign now slotId orderId d
  | Open slotId actor => open_slot now slotId actor d
  end.

(** Requests, each arriving at its own time. *)
Definition serve (reqs : list (Z * Request)) (d : MockData) : MockData :=
  fold_left (fun d r => (handle r.1 r.2 d).2) reqs d.

End SimpleServer.

(** ** index.ts: service start-up *)

Module Startup.

(** A service of the start-up list: its name, whether its [init()] throws,
    and whether it is required. *)
Record Service := {
  sv_name : string;
  sv_init_throws : bool;
  sv_required : bool;
}.

(** How [initializeServices] ends: it returns, or the process exits. *)
Inductive Outcome :=
  | Completed
  | Exit (code : Z) (service : string).

(** The [for] loop: the services whose [init()] was called, in order, and
    the outcome. *)
Fixpoint initialize_each (services : list Service) : list string * Outcome :=
  match services with
  | [] => ([], Completed)
  | service :: rest =>
      if sv_init_throws service then
        if sv_required service then ([sv_name service], Exit 1 (sv_name service))
        else
          let r := initialize_each rest in
          (sv_name service :: r.1, r.2)
      else
        let r := initialize_each rest in
        (sv_name service :: r.1, r.2)
  end.

(** The list of [initializeServices]; [throws] tells which [initialize()]
    fails. *)
Definition services (throws : string → bool) : list Service := [
  {| sv_name := "Database"; sv_init_throws := throws "Database"; sv_required := false |};
  {| sv_name := "Redis"; sv_init_throws := throws "Redis"; sv_required := false |};
  {| sv_name := "MQTT"; sv_init_throws := throws "MQTT"; sv_required := false |};
  {| sv_name := "Auth"; sv_init_throws := throws "Auth"; sv_required := true |};
  {| sv_name := "OrderOrchestrator"; sv_init_throws := throws "OrderOrchestrator";
     sv_required := true |};
  {| sv_name := "EventLedger"; sv_init_throws := throws "EventLedger"; sv_required := true |};
  {| sv_name := "Device"; sv_init_throws := throws "Device"; sv_required := true |} ].

Definition initializeServices (throws : string → bool) : list string * Outcome :=
  initialize_each (services throws).

End Startup.

(** * Vocabulary of the statements *)

(** The server clock in seconds, [Math.floor(Date.now() / 1000)]. *)
Definition clock (w : World) : Z := floor_div (w_now w) 1000.

(** The coordination-store keys the claims talk about. *)
Definition jti_key (cfg : Config.t) (j : string) : string :=
  RedisService.getKey cfg ["unlock_jti"; j].

Definition reservation_key (cfg : Config.t) (slotId : string) : string :=
  RedisService.getKey cfg ["slot_reservation"; slotId].

(** The claim set a token carries ([jwt.decode]). *)
Definition claims_of (token : jwt.Token) : option UnlockToken :=
  match token with
  | jwt.Signed _ _ _ payload => Some payload
  | jwt.Malformed _ => None
  end.

(** What [jwt.verify] answers inside [verifyUnlockToken] in world [w]. *)
Definition jwt_check (cfg : Config.t) (token : jwt.Token) (w : World) : Res UnlockToken :=
  jwt.verify token (AuthService.unlockTokenPublicKey cfg) ["HS256"]
    (Config.security_clockSkewToleranceSeconds cfg) (clock w).

(** A series of presentations [(time, token, shelf)] to [verifyUnlockToken],
    each at its own clock reading; the answers, in order, and the world
    they leave. *)
Fixpoint present_all (cfg : Config.t) (l : list (Z * jwt.Token * string)) (w : World)
    : list (Res (option UnlockToken)) * World :=
  match l with
  | [] => ([], w)
  | (t, token, shelf) :: l' =>
      let r := AuthService.verifyUnlockToken cfg token shelf (set_now t w) in
      let rs := present_all cfg l' r.2 in
      (r.1 :: rs.1, rs.2)
  end.

(** ** A small site, used to exercise the statements *)

(** An empty slot and two prepared orders, as values of the record types
    the workflows pass around. *)

Definition ex_slot : Slot := {|
  s_id := "S1"; s_shelfId := "SHELF-A"; s_siteId := "SITE-1"; s_tenantId := "T1";
  s_index := 1; s_state := empty; s_orderId := None; s_reservedAt := None;
  s_isActive := true |}.


Definition ex_order2 : Order := {|
  o_id := "O2"; o_tenantId := "T1"; o_siteId := "SITE-1"; o_externalRef := "EXT-2";
  o_platform := deliveroo; o_riderId := None; o_status := prepared |}.

Definition no_fault : IO → bool := fun _ => false.

Definition ex_world : World := {|
  w_now := 1000000;
  w_redis := ∅;
  w_seclog := [];
  w_mqtt_connected := true;
  w_published := [];
  w_timers := [];
  w_entropy := 0%N;
  w_fault := no_fault;
|}.

(** The token issued in [ex_world] for order O1, rider R1, slot S1 on shelf
    SHELF-A, and the world right after. *)
Definition ex_claims : UnlockToken := {|
  jti := "uuid-0"; t_tenantId := "T1"; t_siteId := "SITE-1"; t_shelfId := "SHELF-A";
  t_slotId := "S1"; t_orderId := "O1"; t_riderId := "R1";
  exp := 1060; nbf := 1000; iat := 1000 |}.

Definition ex_token : jwt.Token :=
  jwt.Signed "HS256" "unlock-key-1" "unlock-token-secret-change-this" ex_claims.

Definition ex_issued : World :=
  (AuthService.generateUnlockToken Config.default "O1" "R1" "S1" "SHELF-A" "SITE-1" "T1"
     ex_world).2.

(** Three presentations that fail: the right token at the wrong shelf, a
    string that is no token, and a claim set signed with another key. *)
Definition ex_probes : list (Z * jwt.Token * string) :=
  [ (1005000, ex_token, "SHELF-B");
    (1006000, jwt.Malformed "garbage", "SHELF-A");
    (1007000, jwt.Signed "HS256" "unlock-key-1" "guessed-secret" ex_claims, "SHELF-A") ].

(** Slot S1 reserved for O1 in the coordination store (nothing else done
    yet), and a request that prefers S1 for O2. *)
Definition ex_reserved : World :=
  (RedisService.reserveSlot Config.default "S1" "O1" 1800 ex_world).2.

Definition ex_request2 : OrderOrchestratorService.SlotAssignmentRequest := {|
  OrderOrchestratorService.ar_orderId := "O2";
  OrderOrchestratorService.ar_siteId := "SITE-1";
  OrderOrchestratorService.ar_tenantId := "T1";
  OrderOrchestratorService.ar_staffId := "U1";
  OrderOrchestratorService.ar_preferredSlotId := Some "S1" |}.

(** The failure result of [assignOrderToSlot]. *)
Definition assignment_failed : OrderOrchestratorService.AssignmentResult := {|
  OrderOrchestratorService.as_slotId := "";
  OrderOrchestratorService.as_success := false;
  OrderOrchestratorService.as_qrCode := None;
  OrderOrchestratorService.as_otpCode := None |}.




(** A series of calls of [incrementRateLimit] for one key, one per clock
    reading; the counts returned, in order, and the world they leave. *)
Fixpoint count_attempts (cfg : Config.t) (key : string) (windowMs : Z) (times : list Z)
    (w : World) : list (Res Z) * World :=
  match times with
  | [] => ([], w)
  | t :: times' =>
      let r := RedisService.incrementRateLimit cfg key windowMs (set_now t w) in
      let rs := count_attempts cfg key windowMs times' r.2 in
      (r.1 :: rs.1, rs.2)
  end.

(** ** Proof automation: unfolding the monad and the service layers *)

Ltac munfold :=
  unfold mbind, M_bind, mret, M_ret, bind, ret, throw, try_catch, gets, modify,
         logSecurityEvent, logAuditEvent in *.


(** Stand-ins for the two builtins of the QR code in the examples: the
    order ids used there are shorter than eight characters, and the base64
    text is not looked into. *)
Definition ex_slice : Z → string → string := fun _ x => x.
Definition ex_base64 : Fields → string := fun _ => "eyJvcmRlcklkIjoiTzEifQ==".

(** * Vocabulary of the further properties *)

(** ** Strings *)

(** [s.includes(c)] for one character. *)
Fixpoint has_char (c : Ascii.ascii) (s : string) : bool :=
  match s with
  | EmptyString => false
  | String a s' => Ascii.eqb a c || has_char c s'
  end.

(** ** Examples for the subscription registry *)

Definition ex_callback : MQTTRegistry.Callback :=
  {| MQTTRegistry.cb_name := "handleDeviceEvent"; MQTTRegistry.cb_throws := false |}.

Definition ex_callback2 : MQTTRegistry.Callback :=
  {| MQTTRegistry.cb_name := "statusMonitor"; MQTTRegistry.cb_throws := false |}.

(** A client that is offline and has one stored subscription. *)
Definition ex_client : MQTTRegistry.Client := {|
  MQTTRegistry.isConnected := false;
  MQTTRegistry.subscriptions := [("devices/+/status", ex_callback2)];
  MQTTRegistry.brokerSubscriptions := [];
  MQTTRegistry.brokerRejects := fun _ => false;
  MQTTRegistry.brokerRejectsUnsubscribe := fun _ => false |}.

(** The character [':'] (code 58), the separator of the key scheme. *)
Definition colon : Ascii.ascii := Ascii.ascii_of_nat 58.

(** The topic commands for a device are published on. *)
Definition command_topic (deviceId : string) : string :=
  "devices/" +:+ deviceId +:+ "/commands".

(** A command published exactly once by a call: what the list of published
    commands looks like afterwards. *)
Definition published_one (w w' : World) (deviceId : string) (type : CommandType)
    (slotId : option string) (lifetime : Z) : Prop :=
  ∃ cmd, w_published w' = w_published w ++ [(command_topic deviceId, cmd)]
         ∧ c_type cmd = type ∧ c_deviceId cmd = deviceId ∧ c_slotId cmd = slotId
         ∧ c_createdAt cmd = w_now w ∧ c_expiresAt cmd = w_now w + lifetime.

(** Whether a device event reports tampering: its [type] member is the
    string [tamper_detected]. *)
Definition reports_tamper (event : DeviceEvents.Json) : bool :=
  match DeviceEvents.member "type" event with
  | Some (DeviceEvents.JsonString t) => bool_decide (t = "tamper_detected")
  | _ => false
  end.

(** ** The demonstration server: what stays true of its data *)

(** Event ids count up from 1. *)
Definition event_ids_consecutive (d : SimpleServer.MockData) : Prop :=
  ∀ i ev, SimpleServer.events d !! i = Some ev → SimpleServer.me_id ev = Z.of_nat i + 1.

(** Every slot is in one of the three states the statistics count, and a
    slot that is available holds no order. *)
Definition slot_wellformed (s : SimpleServer.MockSlot) : Prop :=
  (SimpleServer.ms_status s = "occupied" ∨ SimpleServer.ms_status s = "available"
   ∨ SimpleServer.ms_status s = "maintenance")
  ∧ (SimpleServer.ms_status s = "available" → SimpleServer.ms_orderId s = None).

Record mock_invariant (d0 d : SimpleServer.MockData) : Prop := {
  mi_ids : map SimpleServer.ms_id (SimpleServer.slots d)
           = map SimpleServer.ms_id (SimpleServer.slots d0);
  mi_lockers : map SimpleServer.ms_lockerNumber (SimpleServer.slots d)
               = map SimpleServer.ms_lockerNumber (SimpleServer.slots d0);
  mi_orders : SimpleServer.orders d = SimpleServer.orders d0;
  mi_events : SimpleServer.events d0 `prefix_of` SimpleServer.events d;
  mi_event_ids : event_ids_consecutive d;
  mi_slots : Forall slot_wellformed (SimpleServer.slots d);
}.

(** A service that does not stop the start-up: optional, or starting. *)
Definition starts_or_optional (s : Startup.Service) : Prop :=
  Startup.sv_required s = true → Startup.sv_init_throws s = false.

(** * Properties *)

(** ** The coordination store *)

Section RedisFacts.

Implicit Types (db : gmap string Redis.Entry) (k : string) (now : Z).

Lemma peek_delete now k db : Redis.peek now k (delete k db) = None.
Proof. unfold Redis.peek. by rewrite lookup_delete_eq. Qed.

Lemma peek_absent now k db : db !! k = None → Redis.peek now k db = None.
Proof. unfold Redis.peek. by intros ->. Qed.

Lemma peek_lookup now k db db' :
  db !! k = db' !! k → Redis.peek now k db = Redis.peek now k db'.
Proof. unfold Redis.peek. by intros ->. Qed.

Lemma peek_live now k db e :
  db !! k = Some e → Redis.live now e = true → Redis.peek now k db = Some e.
Proof. unfold Redis.peek. by intros -> ->. Qed.

End RedisFacts.

(** ** Unlock tokens *)

Lemma jwt_verify_Ok token key algs tol clk d :
  jwt.verify token key algs tol clk = Ok d →
  ∃ alg kid, token = jwt.Signed alg kid key d ∧ alg ∈ algs
             ∧ ¬ (clk + tol < nbf d) ∧ ¬ (exp d + tol ≤ clk).
Proof.
  destruct token as [alg kid k p|raw]; simpl; [|done].
  repeat case_bool_decide; simpl; try done.
  intros [= <-]. subst. eauto 10.
Qed.

Lemma jwt_verify_accepts alg kid key algs tol clk d :
  alg ∈ algs → ¬ (clk + tol < nbf d) → ¬ (exp d + tol ≤ clk) →
  jwt.verify (jwt.Signed alg kid key d) key algs tol clk = Ok d.
Proof. intros. simpl. repeat case_bool_decide; simpl; done. Qed.

Lemma verifyUnlockToken_eval cfg token shelf w :
  let r := AuthService.verifyUnlockToken cfg token shelf w in
  w_now r.2 = w_now w ∧
  match jwt_check cfg token w with
  | Throw _ => r.1 = Ok None ∧ w_redis r.2 = w_redis w
  | Ok d =>
      if bool_decide (t_shelfId d = shelf) then
        match Redis.peek (w_now w) (jti_key cfg (jti d)) (w_redis w) with
        | None => r.1 = Ok None ∧ w_redis r.2 = w_redis w
        | Some _ => r.1 = Ok (Some d)
                    ∧ w_redis r.2 = delete (jti_key cfg (jti d)) (w_redis w)
        end
      else r.1 = Ok None ∧ w_redis r.2 = w_redis w
  end.
Proof.
  unfold AuthService.verifyUnlockToken, jwt_check, clock, jti_key. munfold. simpl.
  destruct (jwt.verify _ _ _ _ _) as [d|e]; simpl; [|done].
  case_bool_decide as Hs; simpl; [|done].
  unfold RedisService.verifyUnlockTokenJti, RedisService.consumeUnlockTokenJti,
    RedisService.client_exists, RedisService.client_del. munfold. simpl.
  unfold Redis.exists_.
  destruct (Redis.peek _ _ _); simpl; done.
Qed.

Lemma generateUnlockToken_eval cfg orderId riderId slotId shelfId siteId tenantId w :
  0 < Config.jwt_unlockTokenTTL cfg + 10 →
  let g := AuthService.generateUnlockToken cfg orderId riderId slotId shelfId siteId tenantId w in
  let payload := {|
    jti := uuid (w_entropy w); t_tenantId := tenantId; t_siteId := siteId;
    t_shelfId := shelfId; t_slotId := slotId; t_orderId := orderId; t_riderId := riderId;
    exp := clock w + Config.jwt_unlockTokenTTL cfg; nbf := clock w; iat := clock w |} in
  g.1 = Ok (jwt.Signed "HS256" "unlock-key-1" (Config.jwt_unlockTokenSecret cfg) payload)
  ∧ w_now g.2 = w_now w
  ∧ w_redis g.2 =
      <[jti_key cfg (uuid (w_entropy w)) :=
          {| Redis.e_val := Redis.Str "1";
             Redis.e_exp := Some (w_now w + (Config.jwt_unlockTokenTTL cfg + 10) * 1000) |}]>
        (w_redis w)
  ∧ w_published g.2 = w_published w ∧ w_timers g.2 = w_timers w
  ∧ w_mqtt_connected g.2 = w_mqtt_connected w.
Proof.
  intros Httl.
  unfold AuthService.generateUnlockToken, randomUUID, RedisService.storeUnlockTokenJti,
    RedisService.client_setEx, Redis.setEx, jti_key, clock. munfold. simpl.
  rewrite bool_decide_eq_true_2 by done. simpl. done.
Qed.

(** If issuing succeeded at all, the store accepted the registration. *)
Lemma generateUnlockToken_Ok_ttl cfg orderId riderId slotId shelfId siteId tenantId w token w1 :
  AuthService.generateUnlockToken cfg orderId riderId slotId shelfId siteId tenantId w = (Ok token, w1) →
  0 < Config.jwt_unlockTokenTTL cfg + 10.
Proof.
  unfold AuthService.generateUnlockToken, randomUUID, RedisService.storeUnlockTokenJti,
    RedisService.client_setEx, Redis.setEx. munfold. simpl.
  case_bool_decide; simpl; [done|]. intros [= ].
Qed.

Lemma jwt_check_claims cfg token w d claims :
  jwt_check cfg token w = Ok d → claims_of token = Some claims → d = claims.
Proof.
  intros (alg & kid & -> & _)%jwt_verify_Ok. simpl. by intros [= ->].
Qed.

(** Once the jti record is gone, no presentation of the token succeeds, and
    the record stays gone. *)
Lemma verifyUnlockToken_consumed cfg token claims shelf w :
  claims_of token = Some claims →
  w_redis w !! jti_key cfg (jti claims) = None →
  let r := AuthService.verifyUnlockToken cfg token shelf w in
  r.1 = Ok None ∧ w_redis r.2 = w_redis w.
Proof.
  intros Hc Hgone.
  destruct (verifyUnlockToken_eval cfg token shelf w) as [_ H].
  destruct (jwt_check cfg token w) as [d|e] eqn:Hj; [|done].
  assert (d = claims) as -> by eauto using jwt_check_claims.
  case_bool_decide; [|done].
  by rewrite (peek_absent _ _ _ Hgone) in H.
Qed.

Lemma present_all_consumed cfg token claims (attempts : list (Z * string)) w :
  claims_of token = Some claims →
  w_redis w !! jti_key cfg (jti claims) = None →
  Forall (λ r, r = Ok None)
    (present_all cfg (map (λ a, (a.1, token, a.2)) attempts) w).1.
Proof.
  intros Hc. revert w.
  induction attempts as [|[t shelf] attempts IH]; intros w Hgone; simpl.
  - constructor.
  - destruct (verifyUnlockToken_consumed cfg token claims shelf (set_now t w) Hc Hgone)
      as [Hr Hdb].
    constructor; [done|].
    apply IH. rewrite Hdb. done.
Qed.

(** The registration outlives the token's own validity window. *)
Lemma jti_live_in_window cfg w now2 :
  floor_div now2 1000 < clock w + Config.jwt_unlockTokenTTL cfg →
  now2 ≤ w_now w + (Config.jwt_unlockTokenTTL cfg + 10) * 1000.
Proof.
  unfold clock, floor_div. intros H.
  pose proof (Z.div_mod now2 1000 ltac:(lia)).
  pose proof (Z.div_mod (w_now w) 1000 ltac:(lia)).
  pose proof (Z.mod_pos_bound now2 1000 ltac:(lia)).
  pose proof (Z.mod_pos_bound (w_now w) 1000 ltac:(lia)).
  lia.
Qed.

(** An issued token, presented with its shelf while its registration is as
    issued and the clock reads within [nbf, exp), is accepted, and the jti
    record is deleted. *)
Lemma issued_token_accepted
    cfg orderId riderId slotId shelfId siteId tenantId w token w1 claims w2 :
  0 ≤ Config.security_clockSkewToleranceSeconds cfg →
  AuthService.generateUnlockToken cfg orderId riderId slotId shelfId siteId tenantId w
    = (Ok token, w1) →
  claims_of token = Some claims →
  w_redis w2 !! jti_key cfg (jti claims) = w_redis w1 !! jti_key cfg (jti claims) →
  nbf claims ≤ clock w2 < exp claims →
  let v := AuthService.verifyUnlockToken cfg token shelfId w2 in
  v.1 = Ok (Some claims)
  ∧ w_redis v.2 = delete (jti_key cfg (jti claims)) (w_redis w2).
Proof.
  intros Htol Hgen Hclaims Hsame [Hnbf Hexp] v.
  pose proof (generateUnlockToken_Ok_ttl _ _ _ _ _ _ _ _ _ _ Hgen) as Httl.
  destruct (generateUnlockToken_eval cfg orderId riderId slotId shelfId siteId tenantId w Httl)
    as (Htok & _ & Hdb & _).
  rewrite Hgen in Htok, Hdb. simpl in Htok, Hdb.
  injection Htok as Htok. rewrite Htok in Hclaims. simpl in Hclaims.
  injection Hclaims as Hcl. rewrite Hcl in Htok.
  assert (Hjti : jti claims = uuid (w_entropy w)) by (by rewrite <- Hcl).
  assert (Hn : nbf claims = clock w) by (by rewrite <- Hcl).
  assert (He : exp claims = clock w + Config.jwt_unlockTokenTTL cfg) by (by rewrite <- Hcl).
  assert (Hs : t_shelfId claims = shelfId) by (by rewrite <- Hcl).
  clear Hcl.
  rewrite Hdb, Hjti, lookup_insert_eq in Hsame.
  assert (Hcheck : jwt_check cfg token w2 = Ok claims).
  { rewrite Htok. apply jwt_verify_accepts; [set_solver|lia|lia]. }
  destruct (verifyUnlockToken_eval cfg token shelfId w2) as [_ H].
  fold v in H. rewrite Hcheck in H.
  rewrite bool_decide_eq_true_2 in H by done.
  rewrite Hjti in H.
  erewrite peek_live in H; [| exact Hsame |].
  2:{ simpl. apply bool_decide_eq_true_2. apply jti_live_in_window. fold (clock w2). lia. }
  by rewrite Hjti.
Qed.

(** *** Overlapping presentations *)

(** Running the two parts of [verifyUnlockToken] back to back is the
    method itself. *)
Lemma verifyUnlockToken_cut cfg token shelf w :
  AuthService.verifyUnlockToken cfg token shelf w
  = (checked ← AuthService.verifyUnlockToken_check cfg token shelf;
     AuthService.verifyUnlockToken_resume cfg shelf checked) w.
Proof.
  unfold AuthService.verifyUnlockToken, AuthService.verifyUnlockToken_check,
    AuthService.verifyUnlockToken_resume. munfold. simpl.
  destruct (jwt.verify _ _ _ _ _) as [d|e]; simpl; [|done].
  case_bool_decide as Hs; simpl; [|done].
  unfold RedisService.verifyUnlockTokenJti, RedisService.consumeUnlockTokenJti,
    RedisService.client_exists, RedisService.client_del. munfold. simpl.
  by case_bool_decide.
Qed.

(** The first part only reads the store. *)
Lemma verifyUnlockToken_check_eval cfg token shelf w :
  let r := AuthService.verifyUnlockToken_check cfg token shelf w in
  w_now r.2 = w_now w ∧ w_redis r.2 = w_redis w
  ∧ r.1 = Ok match jwt_check cfg token w with
             | Throw _ => AuthService.Answered None
             | Ok d =>
                 if bool_decide (t_shelfId d = shelf) then
                   match Redis.peek (w_now w) (jti_key cfg (jti d)) (w_redis w) with
                   | None => AuthService.Answered None
                   | Some _ => AuthService.Pending d
                   end
                 else AuthService.Answered None
             end.
Proof.
  unfold AuthService.verifyUnlockToken_check, jwt_check, clock, jti_key. munfold. simpl.
  destruct (jwt.verify _ _ _ _ _) as [d|e]; simpl; [|done].
  case_bool_decide as Hs; simpl; [|done].
  unfold RedisService.verifyUnlockTokenJti, RedisService.client_exists. munfold. simpl.
  unfold Redis.exists_.
  destruct (Redis.peek _ _ _); simpl; done.
Qed.

(** The second part of a call that found the jti deletes it and returns
    the claims, whether or not the record is still there. *)
Lemma verifyUnlockToken_resume_eval cfg shelf d w :
  let r := AuthService.verifyUnlockToken_resume cfg shelf (AuthService.Pending d) w in
  r.1 = Ok (Some d) ∧ w_now r.2 = w_now w
  ∧ w_redis r.2 = delete (jti_key cfg (jti d)) (w_redis w).
Proof.
  unfold AuthService.verifyUnlockToken_resume, RedisService.consumeUnlockTokenJti,
    RedisService.client_del, jti_key. munfold. simpl. done.
Qed.

Lemma jwt_check_now cfg token w w' :
  w_now w' = w_now w → jwt_check cfg token w' = jwt_check cfg token w.
Proof. unfold jwt_check, clock. by intros ->. Qed.

(** A live jti record and valid claims: the first part answers [Pending]. *)
Lemma verifyUnlockToken_check_pending cfg token claims shelf w e :
  jwt_check cfg token w = Ok claims →
  t_shelfId claims = shelf →
  w_redis w !! jti_key cfg (jti claims) = Some e →
  Redis.live (w_now w) e = true →
  let r := AuthService.verifyUnlockToken_check cfg token shelf w in
  r.1 = Ok (AuthService.Pending claims) ∧ w_now r.2 = w_now w ∧ w_redis r.2 = w_redis w.
Proof.
  intros Hj Hs He Hl r.
  destruct (verifyUnlockToken_check_eval cfg token shelf w) as (Hn & Hdb & Hr).
  fold r in Hn, Hdb, Hr.
  rewrite Hj, bool_decide_eq_true_2 in Hr by done.
  erewrite peek_live in Hr by done. done.
Qed.

(** C1 (single-use token) does not hold of the code when two presentations
    overlap.  [verifyUnlockToken] asks the store whether the jti record
    exists and deletes it with a second command, and it waits in between.
    A token that [generateUnlockToken] returned, presented twice with its own
    shelf while the clock reads within [nbf, exp), the second presentation
    started while the first waits for the answer to its EXISTS, is accepted
    both times: both calls return the claims. *)
Theorem unlock_token_overlap_accepted_twice
    cfg orderId riderId slotId shelfId siteId tenantId w token w1 claims w2 :
  0 ≤ Config.security_clockSkewToleranceSeconds cfg →
  AuthService.generateUnlockToken cfg orderId riderId slotId shelfId siteId tenantId w
    = (Ok token, w1) →
  claims_of token = Some claims →
  w_redis w2 !! jti_key cfg (jti claims) = w_redis w1 !! jti_key cfg (jti claims) →
  nbf claims ≤ clock w2 < exp claims →
  (∀ token' shelf' w',
     AuthService.verifyUnlockToken cfg token' shelf' w'
     = (checked ← AuthService.verifyUnlockToken_check cfg token' shelf';
        AuthService.verifyUnlockToken_resume cfg shelf' checked) w')
  ∧ (AuthService.verifyUnlockToken_overlapped cfg token shelfId token shelfId w2).1
    = Ok (Some claims, Some claims).
Proof.
  intros Htol Hgen Hclaims Hsame [Hnbf Hexp].
  split; [apply verifyUnlockToken_cut|].
  pose proof (generateUnlockToken_Ok_ttl _ _ _ _ _ _ _ _ _ _ Hgen) as Httl.
  destruct (generateUnlockToken_eval cfg orderId riderId slotId shelfId siteId tenantId w Httl)
    as (Htok & _ & Hdb & _).
  rewrite Hgen in Htok, Hdb. simpl in Htok, Hdb.
  injection Htok as Htok. rewrite Htok in Hclaims. simpl in Hclaims.
  injection Hclaims as Hcl. rewrite Hcl in Htok.
  assert (Hjti : jti claims = uuid (w_entropy w)) by (by rewrite <- Hcl).
  assert (Hn : nbf claims = clock w) by (by rewrite <- Hcl).
  assert (He : exp claims = clock w + Config.jwt_unlockTokenTTL cfg) by (by rewrite <- Hcl).
  assert (Hs : t_shelfId claims = shelfId) by (by rewrite <- Hcl).
  clear Hcl.
  rewrite Hdb, Hjti, lookup_insert_eq in Hsame. rewrite <- Hjti in Hsame.
  assert (Hcheck : jwt_check cfg token w2 = Ok claims).
  { rewrite Htok. apply jwt_verify_accepts; [set_solver|lia|lia]. }
  assert (Hlive : w_now w2 ≤ w_now w + (Config.jwt_unlockTokenTTL cfg + 10) * 1000).
  { apply jti_live_in_window. fold (clock w2). lia. }
  unfold AuthService.verifyUnlockToken_overlapped.
  unfold mbind, M_bind, bind.
  destruct (verifyUnlockToken_check_pending cfg token claims shelfId w2 _ Hcheck Hs Hsame)
    as (Ha & Hna & Hdba); [by apply bool_decide_eq_true_2|].
  destruct (AuthService.verifyUnlockToken_check cfg token shelfId w2) as [ra wa].
  simpl in Ha, Hna, Hdba. subst ra.
  destruct (verifyUnlockToken_check_pending cfg token claims shelfId wa _
              ltac:(by rewrite (jwt_check_now _ _ _ _ Hna)) Hs
              ltac:(by rewrite Hdba; exact Hsame))
    as (Hb & Hnb & Hdbb); [rewrite Hna; by apply bool_decide_eq_true_2|].
  destruct (AuthService.verifyUnlockToken_check cfg token shelfId wa) as [rb wb].
  simpl in Hb, Hnb, Hdbb. subst rb.
  destruct (verifyUnlockToken_resume_eval cfg shelfId claims wb) as (Hc & _).
  destruct (AuthService.verifyUnlockToken_resume cfg shelfId (AuthService.Pending claims) wb)
    as [rc wc].
  simpl in Hc. subst rc.
  destruct (verifyUnlockToken_resume_eval cfg shelfId claims wc) as (Hd & _).
  destruct (AuthService.verifyUnlockToken_resume cfg shelfId (AuthService.Pending claims) wc)
    as [rd wd].
  simpl in Hd. subst rd. done.
Qed.

Lemma unlock_token_overlap_accepted_twice_witness :
  (AuthService.verifyUnlockToken_overlapped Config.default
     ex_token "SHELF-A" ex_token "SHELF-A" (set_now 1030000 ex_issued)).1
  = Ok (Some ex_claims, Some ex_claims).
Proof.
  refine (proj2 (unlock_token_overlap_accepted_twice Config.default "O1" "R1" "S1" "SHELF-A"
           "SITE-1" "T1" ex_world ex_token ex_issued ex_claims (set_now 1030000 ex_issued)
           _ _ _ _ _)).
  - vm_compute. discriminate.
  - vm_compute. reflexivity.
  - reflexivity.
  - reflexivity.
  - vm_compute. split; [discriminate | reflexivity].
Defined.

(** C3 (audience binding).  A token whose claims name shelf A, presented for
    a requesting shelf other than A, is answered with null, whatever the
    state of the store and whatever the clock reads. *)
Theorem unlock_token_audience_binding cfg token claims requestingShelfId w :
  claims_of token = Some claims →
  t_shelfId claims ≠ requestingShelfId →
  (AuthService.verifyUnlockToken cfg token requestingShelfId w).1 = Ok None.
Proof.
  intros Hc Hne.
  destruct (verifyUnlockToken_eval cfg token requestingShelfId w) as [_ H].
  destruct (jwt_check cfg token w) as [d|e] eqn:Hj; [|by destruct H].
  assert (d = claims) as -> by eauto using jwt_check_claims.
  rewrite bool_decide_eq_false_2 in H by done. by destruct H.
Qed.

Lemma unlock_token_audience_binding_witness :
  (AuthService.verifyUnlockToken Config.default ex_token "SHELF-B"
     (set_now 1030000 ex_issued)).1 = Ok None.
Proof.
  apply (unlock_token_audience_binding Config.default ex_token ex_claims "SHELF-B"
           (set_now 1030000 ex_issued)).
  - reflexivity.
  - vm_compute. discriminate.
Defined.

(** C4, as the code has it.  A token presented when the clock has reached
    [exp] plus the clock-skew allowance, or when the clock plus the allowance
    is still short of [nbf], is answered with null and the store is left as it
    was, whether or not the token was consumed before.  Between the two, from
    [nbf] minus the allowance up to (not including) [exp] plus the allowance,
    a token signed with the service's key, presented with its own shelf while
    its jti record is in the store, is accepted and its jti record deleted;
    this includes the presentations before [nbf] that are within the
    allowance. *)
Theorem unlock_token_time_window cfg token claims requestingShelfId w :
  claims_of token = Some claims →
  let tolerance := Config.security_clockSkewToleranceSeconds cfg in
  let r := AuthService.verifyUnlockToken cfg token requestingShelfId w in
  (exp claims + tolerance ≤ clock w ∨ clock w + tolerance < nbf claims →
   r.1 = Ok None ∧ w_redis r.2 = w_redis w)
  ∧ (∀ kid,
       token = jwt.Signed "HS256" kid (AuthService.unlockTokenPublicKey cfg) claims →
       t_shelfId claims = requestingShelfId →
       Redis.peek (w_now w) (jti_key cfg (jti claims)) (w_redis w) ≠ None →
       nbf claims - tolerance ≤ clock w < exp claims + tolerance →
       r.1 = Ok (Some claims)
       ∧ w_redis r.2 = delete (jti_key cfg (jti claims)) (w_redis w)).
Proof.
  intros Hc tolerance r.
  destruct (verifyUnlockToken_eval cfg token requestingShelfId w) as [_ H].
  fold r in H.
  split.
  - intros Hout.
    destruct (jwt_check cfg token w) as [d|e] eqn:Hj; [|done].
    assert (d = claims) as -> by eauto using jwt_check_claims.
    apply jwt_verify_Ok in Hj as (alg & kid & _ & _ & Hn & He).
    exfalso. destruct Hout; [by apply He | by apply Hn].
  - intros kid Htok Hshelf Hlive [Hlo Hhi].
    assert (Hj : jwt_check cfg token w = Ok claims).
    { rewrite Htok. apply jwt_verify_accepts; [set_solver| |]; unfold tolerance in *; lia. }
    rewrite Hj, bool_decide_eq_true_2 in H by done.
    destruct (Redis.peek _ _ _); [done|]. by destruct Hlive.
Qed.

Lemma unlock_token_time_window_witness :
  (let r := AuthService.verifyUnlockToken Config.default ex_token "SHELF-A"
              (set_now 1070000 ex_issued) in
   r.1 = Ok None ∧ w_redis r.2 = w_redis (set_now 1070000 ex_issued))
  ∧ (let r := AuthService.verifyUnlockToken Config.default ex_token "SHELF-A"
                (set_now 989000 ex_issued) in
     r.1 = Ok None ∧ w_redis r.2 = w_redis (set_now 989000 ex_issued))
  ∧ (let r := AuthService.verifyUnlockToken Config.default ex_token "SHELF-A"
                (set_now 995000 ex_issued) in
     r.1 = Ok (Some ex_claims)
     ∧ w_redis r.2 = delete (jti_key Config.default (jti ex_claims))
                       (w_redis (set_now 995000 ex_issued))).
Proof.
  split; [|split].
  - apply (unlock_token_time_window Config.default ex_token ex_claims "SHELF-A"
             (set_now 1070000 ex_issued)).
    + reflexivity.
    + left. vm_compute. discriminate.
  - apply (unlock_token_time_window Config.default ex_token ex_claims "SHELF-A"
             (set_now 989000 ex_issued)).
    + reflexivity.
    + right. vm_compute. reflexivity.
  - apply (proj2 (unlock_token_time_window Config.default ex_token ex_claims "SHELF-A"
                    (set_now 995000 ex_issued) eq_refl) "unlock-key-1").
    + reflexivity.
    + reflexivity.
    + vm_compute. discriminate.
    + vm_compute. split; [discriminate | reflexivity].
Defined.

(** C4 as stated fails: with the default allowance of 10 seconds, the token
    issued at second 1000 ([nbf = 1000]) and presented when the clock reads
    second 995, before [nbf], is accepted. *)
Lemma unlock_token_before_nbf_accepted :
  clock (set_now 995000 ex_issued) < nbf ex_claims
  ∧ (AuthService.verifyUnlockToken Config.default ex_token "SHELF-A"
       (set_now 995000 ex_issued)).1 = Ok (Some ex_claims).
Proof. split; vm_compute; reflexivity. Qed.

(** A presentation that is answered with null leaves the store untouched;
    [verifyUnlockToken] never throws. *)
Lemma verifyUnlockToken_null_keeps_store cfg token shelf w :
  let r := AuthService.verifyUnlockToken cfg token shelf w in
  (∃ o, r.1 = Ok o) ∧ (r.1 = Ok None → w_redis r.2 = w_redis w).
Proof.
  intros r.
  destruct (verifyUnlockToken_eval cfg token shelf w) as [_ H]. fold r in H.
  destruct (jwt_check cfg token w) as [d|e]; [|by destruct H; eauto].
  case_bool_decide; [|by destruct H; eauto].
  destruct (Redis.peek _ _ _); [|by destruct H; eauto].
  destruct H as [-> _]. split; [eauto|done].
Qed.

Lemma present_all_null_keeps_store cfg probes w :
  Forall (λ r, r = Ok None) (present_all cfg probes w).1 →
  w_redis (present_all cfg probes w).2 = w_redis w.
Proof.
  revert w. induction probes as [|[[t token] shelf] probes IH]; intros w; simpl; [done|].
  intros [Hhd Htl]%Forall_cons.
  rewrite IH by done.
  by apply verifyUnlockToken_null_keeps_store in Hhd.
Qed.

(** C10 (a failed presentation does not burn the token).  Whenever
    [verifyUnlockToken] answers null, for whatever reason, the coordination
    store is exactly as before, so a change of the store means the call
    succeeded.  Hence after any series of presentations that were all
    answered with null (wrong shelf, bad signature, too early, too late, of
    this token or of others), the issued token presented with its own shelf
    while the clock reads within [nbf, exp) is still accepted. *)
Theorem failed_presentation_keeps_jti
    cfg orderId riderId slotId shelfId siteId tenantId w token w1 claims
    (probes : list (Z * jwt.Token * string)) (t : Z) :
  0 ≤ Config.security_clockSkewToleranceSeconds cfg →
  AuthService.generateUnlockToken cfg orderId riderId slotId shelfId siteId tenantId w
    = (Ok token, w1) →
  claims_of token = Some claims →
  Forall (λ r, r = Ok None) (present_all cfg probes w1).1 →
  nbf claims ≤ floor_div t 1000 < exp claims →
  (∀ token' shelf' w',
     let r := AuthService.verifyUnlockToken cfg token' shelf' w' in
     r.1 = Ok None → w_redis r.2 = w_redis w')
  ∧ w_redis (present_all cfg probes w1).2 = w_redis w1
  ∧ (AuthService.verifyUnlockToken cfg token shelfId
       (set_now t (present_all cfg probes w1).2)).1 = Ok (Some claims).
Proof.
  intros Htol Hgen Hc Hprobes Hwin.
  split; [intros token' shelf' w'; apply verifyUnlockToken_null_keeps_store|].
  pose proof (present_all_null_keeps_store _ _ _ Hprobes) as Hsame.
  split; [done|].
  eapply (issued_token_accepted cfg orderId riderId slotId shelfId siteId tenantId
            w token w1 claims (set_now t (present_all cfg probes w1).2));
    [done|done|done| |done].
  simpl. by rewrite Hsame.
Qed.

Lemma failed_presentation_keeps_jti_witness :
  (∀ token' shelf' w',
     let r := AuthService.verifyUnlockToken Config.default token' shelf' w' in
     r.1 = Ok None → w_redis r.2 = w_redis w')
  ∧ w_redis (present_all Config.default ex_probes ex_issued).2 = w_redis ex_issued
  ∧ (AuthService.verifyUnlockToken Config.default ex_token "SHELF-A"
       (set_now 1030000 (present_all Config.default ex_probes ex_issued).2)).1
    = Ok (Some ex_claims).
Proof.
  apply (failed_presentation_keeps_jti Config.default "O1" "R1" "S1" "SHELF-A" "SITE-1" "T1"
           ex_world ex_token ex_issued ex_claims ex_probes 1030000).
  - vm_compute. discriminate.
  - vm_compute. reflexivity.
  - reflexivity.
  - vm_compute. repeat constructor.
  - vm_compute. split; [discriminate | reflexivity].
Defined.

(** ** Slot reservation *)

Lemma set_redis_id w : set_redis (w_redis w) w = w.
Proof. by destruct w. Qed.

Lemma peek_insert_None now k v (db : gmap string Redis.Entry) :
  Redis.peek now k (<[k := {| Redis.e_val := v; Redis.e_exp := None |}]> db)
  = Some {| Redis.e_val := v; Redis.e_exp := None |}.
Proof. unfold Redis.peek. by rewrite lookup_insert_eq. Qed.

Lemma reserveSlot_eval cfg slotId orderId ttl w :
  let key := reservation_key cfg slotId in
  let r := RedisService.reserveSlot cfg slotId orderId ttl w in
  match Redis.peek (w_now w) key (w_redis w) with
  | Some _ => r = (Ok false, w)
  | None =>
      r = (Ok true,
           set_redis
             (if bool_decide (ttl ≤ 0) then delete key (w_redis w)
              else <[key := {| Redis.e_val := Redis.Str orderId;
                               Redis.e_exp := Some (w_now w + ttl * 1000) |}]> (w_redis w))
             w)
  end.
Proof.
  unfold RedisService.reserveSlot, RedisService.client_setNX, RedisService.client_expire,
    Redis.setNX, Redis.expire, reservation_key. munfold. simpl.
  destruct (Redis.peek _ _ (w_redis w)) eqn:Hp; simpl.
  - by rewrite set_redis_id.
  - rewrite peek_insert_None. simpl.
    case_bool_decide; simpl.
    + by rewrite delete_insert_eq.
    + by rewrite insert_insert_eq.
Qed.

(** ** Assignment: from the reservation on *)

Section AssignFacts.

Import OrderOrchestratorService.
Context (cfg : Config.t) (str_slice : Z → string → string) (base64_json : Fields → string).

Lemma assign_reserve_eval request order targetSlot w :
  assign_reserve cfg str_slice base64_json request order targetSlot w =
    let r := RedisService.reserveSlot cfg (s_id targetSlot) (o_id order)
               (Config.business_slotReservationTTL cfg) w in
    match r.1 with
    | Ok true =>
        try_catch (assign_commit cfg str_slice base64_json request order targetSlot)
          (fun error => RedisService.releaseSlot cfg (s_id targetSlot);; throw error) r.2
    | Ok false => (Throw "Slot reservation failed - slot taken by another request", r.2)
    | Throw e => (Throw e, r.2)
    end.
Proof.
  unfold assign_reserve. munfold.
  destruct (RedisService.reserveSlot _ _ _ _ _) as [[[]|] ?]; done.
Qed.

(** A reservation that is refused: the slot-taken error, nothing changed. *)
Lemma assign_reservation_lost request order targetSlot w :
  (RedisService.reserveSlot cfg (s_id targetSlot) (o_id order)
     (Config.business_slotReservationTTL cfg) w).1 = Ok false →
  assign_reserve cfg str_slice base64_json request order targetSlot w
  = (Throw "Slot reservation failed - slot taken by another request", w).
Proof.
  intros Hres. rewrite assign_reserve_eval. simpl.
  pose proof (reserveSlot_eval cfg (s_id targetSlot) (o_id order)
                (Config.business_slotReservationTTL cfg) w) as He.
  simpl in He. destruct (Redis.peek _ _ _).
  - by rewrite He.
  - rewrite He in Hres. done.
Qed.

(** The placeholder [getOrder] answers [null]: the body of the outer [try]
    stops at its first check. *)
Lemma assignOrderToSlot_try_eval request w :
  assignOrderToSlot_try cfg str_slice base64_json request w = (Throw "Order not found", w).
Proof. reflexivity. Qed.

(** Whatever the body throws, the outer handler answers the failure
    result. *)
Lemma assignOrderToSlot_caught request w e w' :
  assignOrderToSlot_try cfg str_slice base64_json request w = (Throw e, w') →
  assignOrderToSlot cfg str_slice base64_json request w = (Ok assignment_failed, w').
Proof. intros H. unfold assignOrderToSlot, try_catch. by rewrite H. Qed.




End AssignFacts.




(** C2, as the code has it.  [reserveSlot] answers true exactly when no
    unexpired reservation of the slot is present, and false otherwise.  A
    true answer with a positive ttl leaves the binding slot -> order in the
    store, expiring ttl seconds later; a true answer with a ttl of zero or
    less leaves no binding (the EXPIRE that follows the SETNX removes it).
    A false answer leaves the world as it was.  After a successful
    reservation with a positive ttl every further attempt for that slot,
    while the binding is still in place and its time has not run out, answers
    false and changes nothing.  When the reservation inside
    [assignOrderToSlot] answers false, the part of the workflow that starts at
    the reservation throws the slot-taken error and the world is unchanged;
    whatever error the body of [assignOrderToSlot] throws, its outer handler
    answers the failure result.  (With the placeholder [getOrder], that body
    stops at "Order not found" for every request.) *)
Theorem slot_reservation_exclusive cfg str_slice base64_json slotId orderId ttl w :
  let key := reservation_key cfg slotId in
  let r := RedisService.reserveSlot cfg slotId orderId ttl w in
  (r.1 = Ok true ↔ Redis.peek (w_now w) key (w_redis w) = None)
  ∧ (r.1 = Ok false ↔ Redis.peek (w_now w) key (w_redis w) ≠ None)
  ∧ (r.1 = Ok true →
     w_redis r.2 !! key =
       if bool_decide (0 < ttl)
       then Some {| Redis.e_val := Redis.Str orderId;
                    Redis.e_exp := Some (w_now w + ttl * 1000) |}
       else None)
  ∧ (r.1 = Ok false → r.2 = w)
  ∧ (r.1 = Ok true →
     ∀ w2 orderId2 ttl2,
       w_redis w2 !! key = w_redis r.2 !! key →
       w_now w2 ≤ w_now w + ttl * 1000 →
       RedisService.reserveSlot cfg slotId orderId2 ttl2 w2
       = if bool_decide (0 < ttl) then (Ok false, w2)
         else (Ok true, (RedisService.reserveSlot cfg slotId orderId2 ttl2 w2).2))
  ∧ (∀ request order targetSlot wa,
       (RedisService.reserveSlot cfg (s_id targetSlot) (o_id order)
          (Config.business_slotReservationTTL cfg) wa).1 = Ok false →
       OrderOrchestratorService.assign_reserve cfg str_slice base64_json
         request order targetSlot wa
       = (Throw "Slot reservation failed - slot taken by another request", wa))
  ∧ (∀ request wa e wa',
       OrderOrchestratorService.assignOrderToSlot_try cfg str_slice base64_json request wa
       = (Throw e, wa') →
       OrderOrchestratorService.assignOrderToSlot cfg str_slice base64_json request wa
       = (Ok assignment_failed, wa'))
  ∧ (∀ request wa,
       OrderOrchestratorService.assignOrderToSlot_try cfg str_slice base64_json request wa
       = (Throw "Order not found", wa)).
Proof.
  intros key r.
  pose proof (reserveSlot_eval cfg slotId orderId ttl w) as He.
  simpl in He. fold key r in He.
  assert (Hiff : r.1 = Ok true ↔ Redis.peek (w_now w) key (w_redis w) = None).
  { destruct (Redis.peek _ _ _); rewrite He; simpl; split; done. }
  assert (Hiff' : r.1 = Ok false ↔ Redis.peek (w_now w) key (w_redis w) ≠ None).
  { destruct (Redis.peek _ _ _); rewrite He; simpl; split; done. }
  assert (Hrec : r.1 = Ok true →
     w_redis r.2 !! key =
       if bool_decide (0 < ttl)
       then Some {| Redis.e_val := Redis.Str orderId;
                    Redis.e_exp := Some (w_now w + ttl * 1000) |}
       else None).
  { intros Ht. apply Hiff in Ht. rewrite Ht in He. rewrite He. simpl.
    destruct (decide (0 < ttl)).
    - rewrite bool_decide_eq_false_2, bool_decide_eq_true_2 by lia.
      apply lookup_insert_eq.
    - rewrite bool_decide_eq_true_2, bool_decide_eq_false_2 by lia.
      apply lookup_delete_eq. }
  split; [done|]. split; [done|]. split; [done|]. split; [|split; [|split; [|split]]].
  - intros Hf. apply Hiff' in Hf. destruct (Redis.peek _ _ _); [by rewrite He | done].
  - intros Ht w2 orderId2 ttl2 Hsame Hnow.
    rewrite (Hrec Ht) in Hsame.
    pose proof (reserveSlot_eval cfg slotId orderId2 ttl2 w2) as He2. simpl in He2.
    fold key in He2.
    destruct (decide (0 < ttl)).
    + rewrite bool_decide_eq_true_2 in Hsame by done.
      rewrite bool_decide_eq_true_2 by done.
      erewrite peek_live in He2; [done | exact Hsame |].
      simpl. by apply bool_decide_eq_true_2.
    + rewrite bool_decide_eq_false_2 in Hsame by done.
      rewrite bool_decide_eq_false_2 by done.
      rewrite (peek_absent _ _ _ Hsame) in He2. by rewrite He2.
  - intros request order targetSlot wa. apply assign_reservation_lost.
  - intros request wa e wa'. apply assignOrderToSlot_caught.
  - intros request wa. apply assignOrderToSlot_try_eval.
Qed.

Lemma slot_reservation_exclusive_witness :
  (RedisService.reserveSlot Config.default "S1" "O1" 1800 ex_world).1 = Ok true
  ∧ w_redis ex_reserved !! reservation_key Config.default "S1"
    = Some {| Redis.e_val := Redis.Str "O1"; Redis.e_exp := Some (1000000 + 1800 * 1000) |}
  ∧ RedisService.reserveSlot Config.default "S1" "O2" 1800 (set_now 2800000 ex_reserved)
    = (Ok false, set_now 2800000 ex_reserved)
  ∧ OrderOrchestratorService.assign_reserve Config.default ex_slice ex_base64
      ex_request2 ex_order2 ex_slot ex_reserved
    = (Throw "Slot reservation failed - slot taken by another request", ex_reserved).
Proof.
  destruct (slot_reservation_exclusive Config.default ex_slice ex_base64 "S1" "O1" 1800 ex_world)
    as (H1 & _ & H3 & _ & H5 & H6 & _).
  assert (Hfree : Redis.peek (w_now ex_world) (reservation_key Config.default "S1")
                    (w_redis ex_world) = None) by reflexivity.
  pose proof (proj2 H1 Hfree) as Htrue.
  split; [exact Htrue|].
  split; [exact (H3 Htrue)|].
  split.
  - apply (H5 Htrue (set_now 2800000 ex_reserved) "O2" 1800).
    + reflexivity.
    + vm_compute. discriminate.
  - apply (H6 ex_request2 ex_order2 ex_slot ex_reserved). vm_compute. reflexivity.
Defined.

(** C2 as stated fails for a ttl that is not positive: in [ex_world], where
    slot S1 is free, [reserveSlot] with ttl 0 answers true for order O1 but
    records no binding, and the attempt for order O2 that follows at once,
    before any release, answers true as well. *)
Lemma reserveSlot_zero_ttl_not_exclusive :
  let r := RedisService.reserveSlot Config.default "S1" "O1" 0 ex_world in
  r.1 = Ok true
  ∧ w_redis r.2 !! reservation_key Config.default "S1" = None
  ∧ (RedisService.reserveSlot Config.default "S1" "O2" 1800 r.2).1 = Ok true.
Proof. vm_compute. repeat split; reflexivity. Qed.





(** ** Rate limiting *)

Section RateLimitFacts.

Context (cfg : Config.t).

(** What one increment does to the counter and to nothing else. *)
Lemma incrementRateLimit_eval key windowMs w :
  let k := RedisService.getKey cfg ["rate_limit"; key] in
  let r := RedisService.incrementRateLimit cfg key windowMs w in
  w_now r.2 = w_now w ∧ w_published r.2 = w_published w ∧ w_timers r.2 = w_timers w
  ∧ w_mqtt_connected r.2 = w_mqtt_connected w ∧ w_seclog r.2 = w_seclog w
  ∧ w_fault r.2 = w_fault w
  ∧ w_entropy r.2 = w_entropy w
  ∧ (∀ k', k' ≠ k → w_redis r.2 !! k' = w_redis w !! k')
  ∧ match Redis.peek (w_now w) k (w_redis w) with
    | None =>
        r.1 = Ok 1
        ∧ w_redis r.2 !! k =
            (if bool_decide (ceil_div windowMs 1000 ≤ 0) then None
             else Some {| Redis.e_val := Redis.Int 1;
                          Redis.e_exp := Some (w_now w + ceil_div windowMs 1000 * 1000) |})
    | Some e =>
        match Redis.e_val e with
        | Redis.Int n =>
            r.1 = Ok (n + 1)
            ∧ (n ≠ 0 → w_redis r.2 !! k =
                 Some {| Redis.e_val := Redis.Int (n + 1); Redis.e_exp := Redis.e_exp e |})
        | Redis.Str _ => ∃ msg, r.1 = Throw msg
        end
    end.
Proof.
  unfold RedisService.incrementRateLimit, RedisService.client_incr,
    RedisService.client_expire, Redis.incr, Redis.expire. munfold. simpl.
  set (k := RedisService.getKey cfg ["rate_limit"; key]).
  destruct (Redis.peek (w_now w) k (w_redis w)) as [e|] eqn:Hp; simpl.
  - destruct (Redis.e_val e) as [s|n] eqn:Hv; simpl.
    + repeat split; try done. eauto.
    + case_bool_decide as H1; simpl.
      * unfold Redis.peek. rewrite lookup_insert_eq. simpl.
        destruct (Redis.live _ _); simpl.
        -- case_bool_decide; simpl; repeat split; try done;
             try (intros k' Hk'; rewrite ?lookup_delete_ne, ?lookup_insert_ne by done; done);
             intros; lia.
        -- repeat split; try done;
             try (intros k' Hk'; rewrite ?lookup_insert_ne by done; done);
             intros; lia.
      * repeat split; try done.
        -- intros k' Hk'. by rewrite lookup_insert_ne.
        -- intros _. by rewrite lookup_insert_eq.
  - rewrite peek_insert_None. simpl.
    case_bool_decide; simpl; repeat split; try done.
    + intros k' Hk'. by rewrite lookup_delete_ne, lookup_insert_ne.
    + by rewrite lookup_delete_eq.
    + intros k' Hk'. by rewrite !lookup_insert_ne.
    + by rewrite lookup_insert_eq.
Qed.

End RateLimitFacts.

Section CountingFacts.

Context (cfg : Config.t) (key : string) (windowMs : Z).
Local Abbreviation k := (RedisService.getKey cfg ["rate_limit"; key]).

(** While the counter is alive, every call adds one to it. *)
Lemma count_attempts_running times : ∀ w n e,
  w_redis w !! k = Some {| Redis.e_val := Redis.Int n; Redis.e_exp := Some e |} →
  0 < n →
  Forall (λ t, t ≤ e) times →
  let c := count_attempts cfg key windowMs times w in
  (∀ i r, c.1 !! i = Some r → r = Ok (n + 1 + Z.of_nat i))
  ∧ w_redis c.2 !! k
    = Some {| Redis.e_val := Redis.Int (n + Z.of_nat (length times)); Redis.e_exp := Some e |}.
Proof.
  induction times as [|t times IH]; intros w n e Hk Hn Hin; simpl.
  - split; [done|]. by rewrite Z.add_0_r.
  - apply Forall_cons in Hin as [Ht Hin].
    destruct (incrementRateLimit_eval cfg key windowMs (set_now t w))
      as (_ & _ & _ & _ & _ & _ & _ & _ & H).
    fold k in H. simpl in H.
    erewrite peek_live in H; [| exact Hk | by apply bool_decide_eq_true_2].
    simpl in H. destruct H as [Hr Hdb].
    specialize (Hdb ltac:(lia)).
    destruct (IH _ (n + 1) e Hdb ltac:(lia) Hin) as [Hres Hfin].
    split.
    + intros [|i] r; simpl.
      * intros [= <-]. rewrite Hr. f_equal. lia.
      * intros Hi. rewrite (Hres i r Hi). f_equal. lia.
    + rewrite Hfin. do 3 f_equal. lia.
Qed.

(** Counting within one window: the first call, on a counter that is not
    there, returns 1 and starts the window; the calls that follow before
    the window closes return 2, 3, ... *)
Lemma count_attempts_window t0 times w :
  0 < ceil_div windowMs 1000 →
  Redis.peek t0 k (w_redis w) = None →
  Forall (λ t, t ≤ t0 + ceil_div windowMs 1000 * 1000) times →
  let c := count_attempts cfg key windowMs (t0 :: times) w in
  (∀ i r, c.1 !! i = Some r → r = Ok (1 + Z.of_nat i))
  ∧ w_redis c.2 !! k
    = Some {| Redis.e_val := Redis.Int (1 + Z.of_nat (length times));
              Redis.e_exp := Some (t0 + ceil_div windowMs 1000 * 1000) |}.
Proof.
  intros Hwin Hfresh Hin. simpl.
  destruct (incrementRateLimit_eval cfg key windowMs (set_now t0 w))
    as (_ & _ & _ & _ & _ & _ & _ & _ & H).
  fold k in H. simpl in H. rewrite Hfresh in H.
  rewrite bool_decide_eq_false_2 in H by lia. destruct H as [Hr Hdb].
  destruct (count_attempts_running times _ 1 _ Hdb ltac:(lia) Hin) as [Hres Hfin].
  split.
  - intros [|i] r; simpl.
    + intros [= <-]. by rewrite Hr.
    + intros Hi. rewrite (Hres i r Hi). f_equal. lia.
  - exact Hfin.
Qed.

End CountingFacts.


(** * Further properties of the code *)

(** ** Running monadic code step by step *)

Lemma bind_Ok {A B} (m : M A) (k : A → M B) w a w' :
  m w = (Ok a, w') → (m ≫= k) w = k a w'.
Proof. unfold mbind, M_bind, bind. by intros ->. Qed.

Lemma bind_Throw {A B} (m : M A) (k : A → M B) w e w' :
  m w = (Throw e, w') → (m ≫= k) w = (Throw e, w').
Proof. unfold mbind, M_bind, bind. by intros ->. Qed.

Lemma try_catch_Ok {A} (m : M A) h w a w' :
  m w = (Ok a, w') → try_catch m h w = (Ok a, w').
Proof. unfold try_catch. by intros ->. Qed.

Lemma try_catch_Throw {A} (m : M A) h w e w' :
  m w = (Throw e, w') → try_catch m h w = h e w'.
Proof. unfold try_catch. by intros ->. Qed.

(** ** Topic patterns (MQTTService.topicMatches) *)

Section TopicFacts.

Import MQTTTopics.

Lemma split_not_nil sep s : split sep s ≠ [].
Proof.
  destruct s as [|c s]; simpl; [done|].
  destruct (Ascii.eqb c sep); [done|]. by destruct (split sep s).
Qed.

Lemma split_no_sep sep s : has_char sep s = false → split sep s = [s].
Proof.
  induction s as [|c s IH]; simpl; [done|].
  destruct (Ascii.eqb c sep); simpl; [done|].
  intros H. by rewrite IH.
Qed.

Lemma split_app sep s1 s2 :
  split sep (s1 +:+ String sep s2) = split sep s1 ++ split sep s2.
Proof.
  induction s1 as [|c s1 IH]; simpl.
  - by rewrite Ascii.eqb_refl.
  - destruct (Ascii.eqb c sep); simpl; [by rewrite IH|].
    rewrite IH. pose proof (split_not_nil sep s1).
    by destruct (split sep s1).
Qed.

Lemma split_length sep s1 s2 :
  length (split sep (s1 +:+ String sep s2))
  = (length (split sep s1) + length (split sep s2))%nat.
Proof. by rewrite split_app, length_app. Qed.

Lemma split_sep_length sep s :
  has_char sep s = true → (2 ≤ length (split sep s))%nat.
Proof.
  induction s as [|c s IH]; simpl; [done|].
  destruct (Ascii.eqb c sep); simpl.
  - intros _. pose proof (split_not_nil sep s). destruct (split sep s); simpl; [done|lia].
  - intros H. specialize (IH H). destruct (split sep s); simpl in *; lia.
Qed.

Lemma partsMatch_refl parts : partsMatch parts parts = true.
Proof.
  induction parts as [|p ps IH]; simpl; [done|].
  rewrite (bool_decide_eq_true_2 (p = p)) by done. simpl.
  by rewrite andb_false_r.
Qed.

Lemma partsMatch_spec ps ts :
  length ps = length ts →
  partsMatch ps ts = true ↔ Forall2 (λ p t, p = "+" ∨ p = t) ps ts.
Proof.
  revert ts. induction ps as [|p ps IH]; intros [|t ts] Hlen; simpl in *; try done.
  injection Hlen as Hlen. rewrite Forall2_cons.
  destruct (bool_decide (p = "+")) eqn:Hp; simpl.
  - apply bool_decide_eq_true_1 in Hp. rewrite IH by done. tauto.
  - apply bool_decide_eq_false_1 in Hp.
    destruct (bool_decide (p = t)) eqn:Ht; simpl.
    + apply bool_decide_eq_true_1 in Ht. rewrite IH by done. tauto.
    + apply bool_decide_eq_false_1 in Ht. split; [done|]. intros [[|] _]; done.
Qed.

End TopicFacts.

(** X1.  [topicMatches] accepts a topic for a pattern exactly when both have
    the same number of levels and every level of the pattern is the
    single-level wildcard [+] or equals the topic's level; there is no
    multi-level wildcard. *)
Theorem topicMatches_levelwise topic pattern :
  MQTTTopics.topicMatches topic pattern = true
  ↔ Forall2 (λ p t, p = "+" ∨ p = t)
      (MQTTTopics.split MQTTTopics.slash pattern)
      (MQTTTopics.split MQTTTopics.slash topic).
Proof.
  unfold MQTTTopics.topicMatches. case_bool_decide as Hlen; simpl.
  - by apply partsMatch_spec.
  - split; [done|]. intros H. by apply Forall2_length in H.
Qed.

(** X2.  The device-event subscription [devices/+/events] receives the
    events topic of a device exactly when the device id contains no [/]; the
    id the handler then reads off the topic is that device id. *)
Theorem device_events_routing deviceId :
  MQTTTopics.topicMatches ("devices/" +:+ deviceId +:+ "/events") "devices/+/events"
    = negb (has_char MQTTTopics.slash deviceId)
  ∧ (has_char MQTTTopics.slash deviceId = false →
     MQTTTopics.deviceIdOf ("devices/" +:+ deviceId +:+ "/events") = Some deviceId).
Proof.
  assert (Hsplit : MQTTTopics.split MQTTTopics.slash ("devices/" +:+ deviceId +:+ "/events")
                   = "devices" :: MQTTTopics.split MQTTTopics.slash deviceId ++ ["events"]).
  { change ("devices/" +:+ deviceId +:+ "/events")
      with ("devices" +:+ String MQTTTopics.slash (deviceId +:+ String MQTTTopics.slash "events")).
    by rewrite !split_app. }
  unfold MQTTTopics.topicMatches, MQTTTopics.deviceIdOf. rewrite Hsplit.
  destruct (has_char MQTTTopics.slash deviceId) eqn:Hd; simpl.
  - split; [|done]. apply split_sep_length in Hd.
    rewrite bool_decide_eq_false_2; [done|].
    rewrite length_app. simpl. change (length (MQTTTopics.split MQTTTopics.slash "devices/+/events")) with 3%nat.
    lia.
  - rewrite (split_no_sep _ _ Hd). split; [|done].
    by vm_compute MQTTTopics.split.
Qed.

(** ** The subscription registry (MQTTService) *)

Section RegistryFacts.

Import MQTTRegistry.

Lemma dispatch_prefix topic subs :
  dispatch topic subs `prefix_of`
    map (λ kv, cb_name kv.2)
      (List.filter (λ kv, MQTTTopics.topicMatches topic kv.1) subs).
Proof.
  induction subs as [|[p cb] subs IH]; simpl; [done|].
  destruct (MQTTTopics.topicMatches topic p); simpl; [|done].
  destruct (cb_throws cb); simpl.
  - apply prefix_cons, prefix_nil.
  - by apply prefix_cons.
Qed.

Lemma dispatch_all topic subs :
  Forall (λ kv, cb_throws kv.2 = false) subs →
  dispatch topic subs
  = map (λ kv, cb_name kv.2)
      (List.filter (λ kv, MQTTTopics.topicMatches topic kv.1) subs).
Proof.
  induction 1 as [|[p cb] subs Hcb _ IH]; simpl in *; [done|].
  destruct (MQTTTopics.topicMatches topic p); simpl; [|done].
  by rewrite Hcb, IH.
Qed.

Lemma map_set_keys key cb m :
  map fst (map_set key cb m)
  = if bool_decide (key ∈ map fst m) then map fst m else map fst m ++ [key].
Proof.
  induction m as [|[k v] m IH]; simpl; [done|].
  destruct (bool_decide (k = key)) eqn:Hk; simpl.
  - apply bool_decide_eq_true_1 in Hk. subst.
    rewrite bool_decide_eq_true_2; [done|]. apply elem_of_cons. by left.
  - apply bool_decide_eq_false_1 in Hk. rewrite IH.
    destruct (bool_decide (key ∈ map fst m)) eqn:Hin.
    + apply bool_decide_eq_true_1 in Hin.
      rewrite bool_decide_eq_true_2; [done|]. apply elem_of_cons. by right.
    + apply bool_decide_eq_false_1 in Hin.
      rewrite bool_decide_eq_false_2; [done|].
      intros [->|]%elem_of_cons; done.
Qed.

Lemma map_set_lookup key cb m :
  List.find (λ kv, bool_decide (kv.1 = key)) (map_set key cb m) = Some (key, cb).
Proof.
  induction m as [|[k v] m IH]; simpl.
  - by rewrite bool_decide_eq_true_2.
  - destruct (bool_decide (k = key)) eqn:Hk; simpl; rewrite Hk; [|done].
    apply bool_decide_eq_true_1 in Hk. by subst.
Qed.

Lemma map_set_NoDup key cb m :
  NoDup (map fst m) → NoDup (map fst (map_set key cb m)).
Proof.
  intros Hnd. rewrite map_set_keys. case_bool_decide as Hin; [done|].
  apply NoDup_app. split; [done|]. split; [|apply NoDup_singleton].
  intros x Hx Hx'. apply list_elem_of_singleton in Hx'. by subst.
Qed.

Lemma map_delete_keys key m :
  map fst (map_delete key m)
  = List.filter (λ k, negb (bool_decide (k = key))) (map fst m).
Proof.
  unfold map_delete. induction m as [|[k v] m IH]; simpl; [done|].
  destruct (bool_decide (k = key)); simpl; by rewrite IH.
Qed.

Lemma resubscribe_each_spec ps : ∀ c,
  let c' := resubscribe_each ps c in
  subscriptions c' = subscriptions c
  ∧ isConnected c' = isConnected c
  ∧ brokerRejects c' = brokerRejects c
  ∧ brokerSubscriptions c `prefix_of` brokerSubscriptions c'
  ∧ (∀ p, In p ps → brokerRejects c p = false → In p (brokerSubscriptions c')).
Proof.
  induction ps as [|p ps IH]; intros c; simpl.
  - repeat split; try done.
  - unfold subscribeAsync. destruct (brokerRejects c p) eqn:Hr.
    + destruct (IH c) as (H1 & H2 & H3 & H4 & H5).
      repeat split; try done.
      intros q [<-|Hq] Hq'; [congruence|]. by apply H5.
    + destruct (IH (with_broker (brokerSubscriptions c ++ [p]) c)) as (H1 & H2 & H3 & H4 & H5).
      simpl in *. repeat split; try done.
      * etrans; [|exact H4]. by apply prefix_app_r.
      * intros q [<-|Hq] Hq'; [|by apply H5].
        apply list_elem_of_In. eapply elem_of_prefix; [|exact H4].
        apply list_elem_of_In, in_or_app. right. by left.
Qed.

End RegistryFacts.

(** X3.  [handleMessage] calls the callbacks of the subscriptions whose
    pattern matches the topic, in the order of the map, and no others: what
    it calls is always an initial part of that list, all of it when no
    callback throws, and nothing when the payload is not JSON. *)
Theorem handleMessage_calls_matching topic payload c :
  let matching :=
    map (λ kv, MQTTRegistry.cb_name kv.2)
      (List.filter (λ kv, MQTTTopics.topicMatches topic kv.1) (MQTTRegistry.subscriptions c)) in
  MQTTRegistry.handleMessage topic payload c `prefix_of` matching
  ∧ (payload = None → MQTTRegistry.handleMessage topic payload c = [])
  ∧ (payload ≠ None →
     Forall (λ kv, MQTTRegistry.cb_throws kv.2 = false) (MQTTRegistry.subscriptions c) →
     MQTTRegistry.handleMessage topic payload c = matching).
Proof.
  intros matching. unfold MQTTRegistry.handleMessage.
  destruct payload as [m|]; repeat split; try done.
  - apply dispatch_prefix.
  - intros _ H. by apply dispatch_all.
  - apply prefix_nil.
Qed.

(** X4.  A subscription made while the client is offline is stored without
    contacting the broker; the next [connect] event subscribes every stored
    pattern that the broker accepts, and leaves the stored map as it was. *)
Theorem offline_subscription_established pattern callback c :
  MQTTRegistry.isConnected c = false →
  let s := MQTTRegistry.subscribe pattern callback c in
  let c' := MQTTRegistry.on_connect s.2 in
  s.1 = Ok tt
  ∧ MQTTRegistry.brokerSubscriptions s.2 = MQTTRegistry.brokerSubscriptions c
  ∧ List.find (λ kv, bool_decide (kv.1 = pattern)) (MQTTRegistry.subscriptions s.2)
    = Some (pattern, callback)
  ∧ MQTTRegistry.isConnected c' = true
  ∧ MQTTRegistry.subscriptions c' = MQTTRegistry.subscriptions s.2
  ∧ (∀ p, In p (map fst (MQTTRegistry.subscriptions s.2)) →
          MQTTRegistry.brokerRejects c p = false →
          In p (MQTTRegistry.brokerSubscriptions c')).
Proof.
  intros Hoff s c'. unfold s, MQTTRegistry.subscribe. rewrite Hoff. simpl.
  split; [done|]. split; [done|]. split; [apply map_set_lookup|].
  unfold c', s, MQTTRegistry.subscribe, MQTTRegistry.on_connect,
    MQTTRegistry.resubscribeToTopics. rewrite Hoff. simpl.
  match goal with |- context [MQTTRegistry.resubscribe_each ?ps ?c0] =>
    destruct (resubscribe_each_spec ps c0) as (H1 & H2 & H3 & H4 & H5) end.
  simpl in *. split; [done|]. split; [done|]. exact H5.
Qed.

Lemma offline_subscription_established_witness :
  let s := MQTTRegistry.subscribe "devices/+/events" ex_callback ex_client in
  let c' := MQTTRegistry.on_connect s.2 in
  s.1 = Ok tt
  ∧ MQTTRegistry.brokerSubscriptions s.2 = []
  ∧ MQTTRegistry.brokerSubscriptions c' = ["devices/+/status"; "devices/+/events"].
Proof.
  destruct (offline_subscription_established "devices/+/events" ex_callback ex_client eq_refl)
    as (H1 & H2 & _).
  split; [exact H1|]. split; [exact H2|]. reflexivity.
Defined.

(** X5.  The registry holds one callback per pattern: subscribing keeps the
    patterns distinct and makes the new callback the one stored for the
    pattern; a subscription the broker rejects changes nothing.
    [unsubscribe] returns exactly when the client is offline or the broker
    accepts the unsubscription, and then the pattern is no longer in the map
    and the remaining patterns are distinct; when the client is connected and
    the broker rejects the unsubscription, [unsubscribe] throws and the client
    is as before, the pattern still in the map. *)
Theorem registry_one_callback_per_pattern pattern callback c :
  NoDup (map fst (MQTTRegistry.subscriptions c)) →
  let s := MQTTRegistry.subscribe pattern callback c in
  let u := MQTTRegistry.unsubscribe pattern c in
  NoDup (map fst (MQTTRegistry.subscriptions s.2))
  ∧ (s.1 = Ok tt →
     List.find (λ kv, bool_decide (kv.1 = pattern)) (MQTTRegistry.subscriptions s.2)
     = Some (pattern, callback))
  ∧ (∀ e, s.1 = Throw e → s.2 = c)
  ∧ (u.1 = Ok tt ↔ MQTTRegistry.isConnected c = false
                    ∨ MQTTRegistry.brokerRejectsUnsubscribe c pattern = false)
  ∧ (u.1 = Ok tt →
     ¬ In pattern (map fst (MQTTRegistry.subscriptions u.2))
     ∧ NoDup (map fst (MQTTRegistry.subscriptions u.2)))
  ∧ (∀ e, u.1 = Throw e → u.2 = c).
Proof.
  intros Hnd s u.
  assert (Hs : (s.1 = Ok tt ∧ MQTTRegistry.subscriptions s.2
                  = MQTTRegistry.map_set pattern callback (MQTTRegistry.subscriptions c))
               ∨ (∃ e, s.1 = Throw e) ∧ s.2 = c).
  { unfold s, MQTTRegistry.subscribe, MQTTRegistry.subscribeAsync.
    destruct (MQTTRegistry.isConnected c); simpl; [|by left].
    destruct (MQTTRegistry.brokerRejects c pattern); simpl; [right; eauto|by left]. }
  assert (Hu : (u.1 = Ok tt
                ∧ (MQTTRegistry.isConnected c = false
                   ∨ MQTTRegistry.brokerRejectsUnsubscribe c pattern = false)
                ∧ MQTTRegistry.subscriptions u.2
                  = MQTTRegistry.map_delete pattern (MQTTRegistry.subscriptions c))
               ∨ ((∃ e, u.1 = Throw e)
                  ∧ MQTTRegistry.isConnected c = true
                  ∧ MQTTRegistry.brokerRejectsUnsubscribe c pattern = true
                  ∧ u.2 = c)).
  { unfold u, MQTTRegistry.unsubscribe, MQTTRegistry.unsubscribeAsync.
    destruct (MQTTRegistry.isConnected c); simpl; [|left; auto].
    destruct (MQTTRegistry.brokerRejectsUnsubscribe c pattern); simpl;
      [right; eauto|left; auto]. }
  split; [|split; [|split; [|split; [|split]]]].
  - destruct Hs as [[_ ->]|[_ ->]]; [by apply map_set_NoDup|done].
  - intros Hok. destruct Hs as [[_ ->]|[[e He] _]]; [apply map_set_lookup|congruence].
  - intros e He. destruct Hs as [[Hok _]|[_ ->]]; [congruence|done].
  - destruct Hu as [(Hok & Hc & _)|([e He] & Hc & Hr & _)].
    + split; done.
    + split; [congruence|]. intros [|]; congruence.
  - intros Hok. destruct Hu as [(_ & _ & ->)|([e He] & _)]; [|congruence].
    rewrite map_delete_keys. split.
    + intros Hin. apply filter_In in Hin.
      destruct Hin as [_ Hin]. by rewrite bool_decide_eq_true_2 in Hin.
    + apply NoDup_ListNoDup, List.NoDup_filter. by apply NoDup_ListNoDup.
  - intros e He. destruct Hu as [(Hok & _)|(_ & _ & _ & ->)]; [congruence|done].
Qed.

Lemma registry_one_callback_per_pattern_witness :
  let s := MQTTRegistry.subscribe "devices/+/status" ex_callback ex_client in
  let u := MQTTRegistry.unsubscribe "devices/+/status" ex_client in
  MQTTRegistry.subscriptions s.2 = [("devices/+/status", ex_callback)]
  ∧ MQTTRegistry.subscriptions u.2 = []
  ∧ NoDup (map fst (MQTTRegistry.subscriptions s.2)).
Proof.
  split; [reflexivity|]. split; [reflexivity|].
  apply (registry_one_callback_per_pattern "devices/+/status" ex_callback ex_client).
  simpl. apply NoDup_singleton.
Defined.

(** ** The key scheme of the coordination store (RedisService.getKey) *)

Section KeyFacts.

Lemma append_cons (x : Ascii.ascii) (a b : string) :
  String x a +:+ b = String x (a +:+ b).
Proof. reflexivity. Qed.

Lemma append_inj_l (s a b : string) : s +:+ a = s +:+ b → a = b.
Proof. apply String.app_inj. Qed.

Lemma append_assoc_s (a b c : string) : (a +:+ b) +:+ c = a +:+ (b +:+ c).
Proof.
  induction a as [|x a IH]; [reflexivity|].
  rewrite !append_cons. f_equal. exact IH.
Qed.

(** Two strings that agree up to and including their first colon. *)
Lemma first_colon_inj (a b x y : string) :
  has_char colon a = false → has_char colon b = false →
  a +:+ String colon x = b +:+ String colon y → a = b ∧ x = y.
Proof.
  revert b. induction a as [|c a IH]; intros [|d b]; rewrite ?append_cons;
    change ("" +:+ ?s) with s; simpl.
  - intros _ _ [= ->]. done.
  - intros _ Hb [= <- _]. by rewrite Ascii.eqb_refl in Hb.
  - intros Ha _ [= -> _]. by rewrite Ascii.eqb_refl in Ha.
  - intros Ha Hb [= -> H].
    apply orb_false_elim in Ha as [_ Ha]. apply orb_false_elim in Hb as [_ Hb].
    destruct (IH b Ha Hb H) as [-> ->]. done.
Qed.

Lemma getKey_two cfg category id :
  RedisService.getKey cfg [category; id]
  = Config.redis_keyPrefix cfg +:+ (category +:+ String colon id).
Proof. reflexivity. Qed.

Lemma getKey_three cfg category id1 id2 :
  RedisService.getKey cfg [category; id1; id2]
  = Config.redis_keyPrefix cfg +:+ (category +:+ String colon (id1 +:+ String colon id2)).
Proof. reflexivity. Qed.

Lemma getKey_two_inj cfg category1 id1 category2 id2 :
  has_char colon category1 = false →
  has_char colon category2 = false →
  RedisService.getKey cfg [category1; id1] = RedisService.getKey cfg [category2; id2] →
  category1 = category2 ∧ id1 = id2.
Proof.
  intros H1 H2. rewrite !getKey_two. intros H%append_inj_l. by apply first_colon_inj.
Qed.

End KeyFacts.

(** X6.  Keys built from a category and one identifier are injective when
    the categories contain no colon (none of the adapter's does): two such
    keys are equal only for the same category and the same identifier, so
    sessions, magic links, jti records, counters, reservations, device status
    and cache entries never share a key. *)
Theorem getKey_injective cfg category1 id1 category2 id2 :
  has_char colon category1 = false →
  has_char colon category2 = false →
  RedisService.getKey cfg [category1; id1] = RedisService.getKey cfg [category2; id2]
  ↔ category1 = category2 ∧ id1 = id2.
Proof.
  intros H1 H2. split; [by apply getKey_two_inj|by intros [-> ->]].
Qed.

Lemma getKey_injective_witness :
  RedisService.getKey Config.default ["unlock_jti"; "x"]
  = RedisService.getKey Config.default ["rate_limit"; "x"]
  ↔ "unlock_jti" = "rate_limit" ∧ "x" = "x".
Proof.
  apply (getKey_injective Config.default "unlock_jti" "x" "rate_limit" "x"); reflexivity.
Defined.

(** X7.  Rider-session keys join the rider id and the device id with the
    same colon: they are injective for rider ids without a colon, but a rider
    id [a:b] with device [c] and a rider id [a] with device [b:c] get one and
    the same key, so a session stored for the first pair is what is read for
    the second. *)
Theorem riderSession_key_collision cfg a b c sessionToken w :
  (∀ r1 d1 r2 d2,
     has_char colon r1 = false → has_char colon r2 = false →
     RedisService.getKey cfg ["rider_session"; r1; d1]
       = RedisService.getKey cfg ["rider_session"; r2; d2] →
     r1 = r2 ∧ d1 = d2)
  ∧ RedisService.getKey cfg ["rider_session"; a +:+ String colon b; c]
    = RedisService.getKey cfg ["rider_session"; a; b +:+ String colon c]
  ∧ (RedisKeys.getRiderSession cfg a (b +:+ String colon c)
       (RedisKeys.setRiderSession cfg (a +:+ String colon b) c sessionToken w).2).1
    = Ok (Some (Redis.Str sessionToken)).
Proof.
  assert (Hkey : RedisService.getKey cfg ["rider_session"; a +:+ String colon b; c]
                 = RedisService.getKey cfg ["rider_session"; a; b +:+ String colon c]).
  { rewrite !getKey_three. do 3 f_equal. apply append_assoc_s. }
  split; [|split; [exact Hkey|]].
  - intros r1 d1 r2 d2 H1 H2. rewrite !getKey_three.
    intros H%append_inj_l. apply (append_inj_l "rider_session") in H.
    injection H as H. by apply first_colon_inj.
  - unfold RedisKeys.getRiderSession, RedisKeys.setRiderSession,
      RedisService.client_setEx, RedisService.client_get, Redis.setEx, Redis.get,
      Redis.peek, gets. simpl.
    rewrite Hkey, lookup_insert_eq. unfold Redis.live. simpl.
    by rewrite bool_decide_eq_true_2 by lia.
Qed.

(** ** Lifetimes in the coordination store *)

Section StoreFacts.

Lemma peek_insert now k e (db : gmap string Redis.Entry) :
  Redis.peek now k (<[k := e]> db) = if Redis.live now e then Some e else None.
Proof. unfold Redis.peek. by rewrite lookup_insert_eq. Qed.

Lemma peek_insert_ne now k k' e (db : gmap string Redis.Entry) :
  k' ≠ k → Redis.peek now k' (<[k := e]> db) = Redis.peek now k' db.
Proof. intros H. unfold Redis.peek. by rewrite lookup_insert_ne. Qed.

Lemma peek_delete_ne now k k' (db : gmap string Redis.Entry) :
  k' ≠ k → Redis.peek now k' (delete k db) = Redis.peek now k' db.
Proof. intros H. unfold Redis.peek. by rewrite lookup_delete_ne. Qed.

Lemma client_setEx_eval k ttl v w :
  0 < ttl →
  RedisService.client_setEx k ttl v w
  = (Ok tt, set_redis (<[k := {| Redis.e_val := v;
                                 Redis.e_exp := Some (w_now w + ttl * 1000) |}]> (w_redis w)) w).
Proof.
  intros H. unfold RedisService.client_setEx, Redis.setEx.
  by rewrite bool_decide_eq_true_2.
Qed.

Lemma ceil_div_pos a : 0 < ceil_div a 1000 ↔ 0 < a.
Proof.
  unfold ceil_div.
  pose proof (Z.div_mod (- a) 1000 ltac:(lia)).
  pose proof (Z.mod_pos_bound (- a) 1000 ltac:(lia)).
  lia.
Qed.

End StoreFacts.

(** X8.  A magic link is good for 900 seconds and is not used up by being
    verified: after [storeMagicLinkToken] (which always succeeds),
    [verifyMagicLinkToken] answers true at every clock reading up to 900000 ms
    after the store and false at every later one, and leaves the world as it
    is; after [invalidateMagicLinkToken] it answers false at any time; and
    storing one token does not change the answer for any other token. *)
Theorem magic_link_lifecycle cfg token riderId w :
  let w1 := (RedisKeys.storeMagicLinkToken cfg token riderId w).2 in
  (RedisKeys.storeMagicLinkToken cfg token riderId w).1 = Ok tt
  ∧ (∀ now', RedisKeys.verifyMagicLinkToken cfg token (set_now now' w1)
             = (Ok (bool_decide (now' ≤ w_now w + 900000)), set_now now' w1))
  ∧ (∀ now',
       (RedisKeys.verifyMagicLinkToken cfg token
          (RedisKeys.invalidateMagicLinkToken cfg token (set_now now' w1)).2).1 = Ok false)
  ∧ (∀ token' now', token' ≠ token →
       (RedisKeys.verifyMagicLinkToken cfg token' (set_now now' w1)).1
       = (RedisKeys.verifyMagicLinkToken cfg token' (set_now now' w)).1).
Proof.
  unfold RedisKeys.storeMagicLinkToken. rewrite client_setEx_eval by lia. simpl.
  split; [done|].
  unfold RedisKeys.verifyMagicLinkToken, RedisKeys.invalidateMagicLinkToken,
    RedisService.client_exists, RedisService.client_del, Redis.exists_, Redis.del.
  munfold. simpl. repeat split.
  - intros now'. rewrite peek_insert. unfold Redis.live. simpl.
    replace (w_now w + 900 * 1000) with (w_now w + 900000) by lia.
    destruct (bool_decide (now' ≤ w_now w + 900000)); reflexivity.
  - intros now'. by rewrite peek_delete.
  - intros token' now' Hne. rewrite peek_insert_ne; [done|].
    rewrite !getKey_two. intros H%append_inj_l%append_inj_l. congruence.
Qed.

(** X9.  The lease behind a reservation.  After a [reserveSlot] that
    answered true, [getSlotReservation] names the reserving order at every
    clock reading up to ttl seconds later and nothing afterwards; once the
    lease has run out any other order can reserve the slot; [releaseSlot]
    frees a slot whoever holds it.  With a ttl that is not positive the answer
    is still true but nothing is held at all. *)
Theorem reservation_lease cfg slotId orderId ttl w :
  let r := RedisService.reserveSlot cfg slotId orderId ttl w in
  r.1 = Ok true →
  (∀ now', (RedisService.getSlotReservation cfg slotId (set_now now' r.2)).1
           = Ok (if bool_decide (0 < ttl ∧ now' ≤ w_now w + ttl * 1000)
                 then Some (Redis.Str orderId) else None))
  ∧ (∀ now' orderId2 ttl2,
       ¬ (0 < ttl ∧ now' ≤ w_now w + ttl * 1000) →
       (RedisService.reserveSlot cfg slotId orderId2 ttl2 (set_now now' r.2)).1 = Ok true)
  ∧ (∀ w2 orderId2 ttl2,
       (RedisService.reserveSlot cfg slotId orderId2 ttl2
          (RedisService.releaseSlot cfg slotId w2).2).1 = Ok true).
Proof.
  intros r Hr.
  assert (Hpeek : ∀ now', Redis.peek now' (reservation_key cfg slotId) (w_redis r.2)
            = if bool_decide (0 < ttl ∧ now' ≤ w_now w + ttl * 1000)
              then Some {| Redis.e_val := Redis.Str orderId;
                           Redis.e_exp := Some (w_now w + ttl * 1000) |}
              else None).
  { intros now'. pose proof (reserveSlot_eval cfg slotId orderId ttl w) as He.
    simpl in He. fold r in He.
    destruct (Redis.peek (w_now w) (reservation_key cfg slotId) (w_redis w)).
    - rewrite He in Hr. discriminate.
    - rewrite He. simpl. case_bool_decide as Httl.
      + rewrite peek_delete. rewrite bool_decide_eq_false_2; [done|lia].
      + rewrite peek_insert. unfold Redis.live. simpl.
        repeat case_bool_decide; try done; lia. }
  repeat split.
  - intros now'. unfold RedisService.getSlotReservation, RedisService.client_get, Redis.get.
    munfold. simpl. fold (reservation_key cfg slotId). rewrite Hpeek.
    by case_bool_decide.
  - intros now' orderId2 ttl2 Hout.
    pose proof (reserveSlot_eval cfg slotId orderId2 ttl2 (set_now now' r.2)) as He.
    simpl in He. rewrite Hpeek, bool_decide_eq_false_2 in He by done.
    by rewrite He.
  - intros w2 orderId2 ttl2.
    unfold RedisService.releaseSlot, RedisService.client_del, Redis.del, modify. simpl.
    fold (reservation_key cfg slotId).
    pose proof (reserveSlot_eval cfg slotId orderId2 ttl2
                  (set_redis (delete (reservation_key cfg slotId) (w_redis w2)) w2)) as He.
    simpl in He. rewrite peek_delete in He. by rewrite He.
Qed.

Lemma reservation_lease_witness :
  let r := RedisService.reserveSlot Config.default "S1" "O1" 1800 ex_world in
  (∀ now', (RedisService.getSlotReservation Config.default "S1" (set_now now' r.2)).1
           = Ok (if bool_decide (0 < 1800 ∧ now' ≤ w_now ex_world + 1800 * 1000)
                 then Some (Redis.Str "O1") else None))
  ∧ (∀ now' orderId2 ttl2,
       ¬ (0 < 1800 ∧ now' ≤ w_now ex_world + 1800 * 1000) →
       (RedisService.reserveSlot Config.default "S1" orderId2 ttl2 (set_now now' r.2)).1 = Ok true)
  ∧ (∀ w2 orderId2 ttl2,
       (RedisService.reserveSlot Config.default "S1" orderId2 ttl2
          (RedisService.releaseSlot Config.default "S1" w2).2).1 = Ok true).
Proof.
  apply (reservation_lease Config.default "S1" "O1" 1800 ex_world). reflexivity.
Defined.

Section WindowFacts.

Context (cfg : Config.t) (key : string) (windowMs : Z).
Local Abbreviation rk := (RedisService.getKey cfg ["rate_limit"; key]).

(** With a window that is not positive the counter is deleted as soon as it
    is created: every call counts 1. *)
Lemma count_attempts_no_window :
  windowMs ≤ 0 → ∀ times t w,
  Redis.peek t rk (w_redis w) = None →
  let c := count_attempts cfg key windowMs (t :: times) w in
  (∀ i r, c.1 !! i = Some r → r = Ok 1) ∧ w_redis c.2 !! rk = None.
Proof.
  intros Hwin. assert (Hc : ceil_div windowMs 1000 ≤ 0).
  { pose proof (ceil_div_pos windowMs). lia. }
  induction times as [|t2 times IH]; intros t w Hp.
  - simpl. destruct (incrementRateLimit_eval cfg key windowMs (set_now t w))
      as (_ & _ & _ & _ & _ & _ & _ & _ & H).
    simpl in H. rewrite Hp, bool_decide_eq_true_2 in H by done.
    destruct H as [Hr Hdb]. split; [|exact Hdb].
    intros [|i] r; simpl; [|done]. intros [= <-]. exact Hr.
  - destruct (incrementRateLimit_eval cfg key windowMs (set_now t w))
      as (_ & _ & _ & _ & _ & _ & _ & _ & H).
    simpl in H. rewrite Hp, bool_decide_eq_true_2 in H by done.
    destruct H as [Hr Hdb].
    specialize (IH t2 _ (peek_absent t2 _ _ Hdb)).
    destruct IH as [IH1 IH2].
    change (count_attempts cfg key windowMs (t :: t2 :: times) w)
      with (let r := RedisService.incrementRateLimit cfg key windowMs (set_now t w) in
            let rs := count_attempts cfg key windowMs (t2 :: times) r.2 in
            (r.1 :: rs.1, rs.2)).
    cbv zeta. split; [|exact IH2].
    intros [|i] r; [intros [= <-]; exact Hr|]. apply IH1.
Qed.

End WindowFacts.

(** X10.  The rate-limit window is fixed by the first counted call.  On a
    fresh counter and with a positive window, after calls at [t0] and at
    later readings inside the window (the window length rounded up to whole
    seconds), [getRateLimit] reports the number of calls until the window
    closes; after that it reports 0 and the next [incrementRateLimit] counts 1
    again, however recent the last call was.  With a window that is not
    positive every call counts 1. *)
Theorem rate_limit_fixed_window cfg parseInt10 key windowMs t0 times w :
  Redis.peek t0 (RedisService.getKey cfg ["rate_limit"; key]) (w_redis w) = None →
  let W := ceil_div windowMs 1000 * 1000 in
  let c := count_attempts cfg key windowMs (t0 :: times) w in
  (0 < windowMs → Forall (λ t, t ≤ t0 + W) times →
     (∀ t, t ≤ t0 + W →
        (RedisKeys.getRateLimit cfg parseInt10 key (set_now t c.2)).1
        = Ok (Some (1 + Z.of_nat (length times))))
     ∧ (∀ t, t0 + W < t →
          (RedisKeys.getRateLimit cfg parseInt10 key (set_now t c.2)).1 = Ok (Some 0)
          ∧ (RedisService.incrementRateLimit cfg key windowMs (set_now t c.2)).1 = Ok 1))
  ∧ (windowMs ≤ 0 → ∀ i r, c.1 !! i = Some r → r = Ok 1).
Proof.
  intros Hfresh W c. split.
  - intros Hwin Hin.
    destruct (count_attempts_window cfg key windowMs t0 times w
                ltac:(by apply ceil_div_pos) Hfresh Hin) as [_ Hfin].
    fold c in Hfin. fold W in Hfin.
    assert (Hpeek : ∀ t, Redis.peek t (RedisService.getKey cfg ["rate_limit"; key]) (w_redis c.2)
              = if bool_decide (t ≤ t0 + W)
                then Some {| Redis.e_val := Redis.Int (1 + Z.of_nat (length times));
                             Redis.e_exp := Some (t0 + W) |}
                else None).
    { intros t. unfold Redis.peek. rewrite Hfin. reflexivity. }
    split.
    + intros t Ht. unfold RedisKeys.getRateLimit, RedisService.client_get, Redis.get.
      munfold. simpl. rewrite Hpeek, bool_decide_eq_true_2 by done. reflexivity.
    + intros t Ht. split.
      * unfold RedisKeys.getRateLimit, RedisService.client_get, Redis.get.
        munfold. simpl. rewrite Hpeek, bool_decide_eq_false_2 by lia. reflexivity.
      * destruct (incrementRateLimit_eval cfg key windowMs (set_now t c.2))
          as (_ & _ & _ & _ & _ & _ & _ & _ & H).
        simpl in H. rewrite Hpeek, bool_decide_eq_false_2 in H by lia. apply H.
  - intros Hwin. by apply count_attempts_no_window.
Qed.

Lemma rate_limit_fixed_window_witness :
  let W := ceil_div 60000 1000 * 1000 in
  let c := count_attempts Config.default "unlock_attempts:R1" 60000 [1000000; 1001000] ex_world in
  (0 < 60000 → Forall (λ t, t ≤ 1000000 + W) [1001000] →
     (∀ t, t ≤ 1000000 + W →
        (RedisKeys.getRateLimit Config.default (λ _, None) "unlock_attempts:R1" (set_now t c.2)).1
        = Ok (Some (1 + Z.of_nat (length [1001000]))))
     ∧ (∀ t, 1000000 + W < t →
          (RedisKeys.getRateLimit Config.default (λ _, None) "unlock_attempts:R1" (set_now t c.2)).1
          = Ok (Some 0)
          ∧ (RedisService.incrementRateLimit Config.default "unlock_attempts:R1" 60000
               (set_now t c.2)).1 = Ok 1))
  ∧ (60000 ≤ 0 → ∀ i r, c.1 !! i = Some r → r = Ok 1).
Proof.
  apply (rate_limit_fixed_window Config.default (λ _, None) "unlock_attempts:R1" 60000
           1000000 [1001000] ex_world).
  reflexivity.
Defined.

(** ** Commands to devices (DeviceService, MQTTService.publishCommand) *)

Section CommandFacts.

Lemma publishCommand_run deviceId command w :
  w_mqtt_connected w = true → w_fault w IoPublish = false →
  MQTTService.publishCommand deviceId command w
  = (Ok tt, set_published (w_published w ++ [(command_topic deviceId, command)]) w).
Proof.
  intros Hc Hf. unfold MQTTService.publishCommand. munfold. simpl.
  rewrite Hc. simpl. by rewrite Hf.
Qed.

Lemma publishCommand_offline deviceId command w :
  w_mqtt_connected w = false →
  MQTTService.publishCommand deviceId command w = (Throw "MQTT client not connected", w).
Proof. intros Hc. unfold MQTTService.publishCommand. munfold. simpl. by rewrite Hc. Qed.

Lemma publishCommand_rejected deviceId command w :
  w_mqtt_connected w = true → w_fault w IoPublish = true →
  MQTTService.publishCommand deviceId command w = (Throw "mqtt: publish rejected", w).
Proof.
  intros Hc Hf. unfold MQTTService.publishCommand. munfold. simpl.
  rewrite Hc. simpl. by rewrite Hf.
Qed.

Lemma sendSlotLockCommand_run shelfId slotId w :
  w_mqtt_connected w = true → w_fault w IoPublish = false →
  DeviceService.sendSlotLockCommand shelfId slotId w
  = (Ok tt,
     set_published
       (w_published w ++
        [(command_topic shelfId,
          {| c_id := "cmd_" +:+ pretty (w_now w) +:+ "_" +:+ pretty (w_entropy w);
             c_type := lock_slot; c_deviceId := shelfId; c_slotId := Some slotId;
             c_payload := [("slotId", JStr slotId)];
             c_createdAt := w_now w; c_expiresAt := w_now w + 30000 |})])
       (set_entropy (N.succ (w_entropy w)) w)).
Proof.
  intros Hc Hf. unfold DeviceService.sendSlotLockCommand, DeviceService.randomSuffix.
  munfold. simpl. rewrite publishCommand_run by done. reflexivity.
Qed.

Lemma sendEmergencyUnlockCommand_run shelfId slotId w :
  w_mqtt_connected w = true → w_fault w IoPublish = false →
  DeviceService.sendEmergencyUnlockCommand shelfId slotId w
  = (Ok tt,
     set_published
       (w_published w ++
        [(command_topic shelfId,
          {| c_id := "emergency_" +:+ pretty (w_now w) +:+ "_" +:+ pretty (w_entropy w);
             c_type := emergency_unlock; c_deviceId := shelfId; c_slotId := Some slotId;
             c_payload := [("slotId", JStr slotId); ("emergency", JBool true)];
             c_createdAt := w_now w; c_expiresAt := w_now w + 60000 |})])
       (set_entropy (N.succ (w_entropy w)) w)).
Proof.
  intros Hc Hf. unfold DeviceService.sendEmergencyUnlockCommand, DeviceService.randomSuffix.
  munfold. simpl. rewrite publishCommand_run by done. reflexivity.
Qed.

Lemma sendEmergencyUnlockCommand_fails shelfId slotId w :
  w_mqtt_connected w = false ∨ w_fault w IoPublish = true →
  ∃ e, DeviceService.sendEmergencyUnlockCommand shelfId slotId w
       = (Throw e, set_entropy (N.succ (w_entropy w)) w).
Proof.
  intros H. unfold DeviceService.sendEmergencyUnlockCommand, DeviceService.randomSuffix.
  munfold. simpl. destruct (w_mqtt_connected w) eqn:Hc.
  - destruct H as [H|H]; [done|]. rewrite publishCommand_rejected by done. eauto.
  - rewrite publishCommand_offline by done. eauto.
Qed.

End CommandFacts.

(** X12.  Each of the three command senders, when the device channel is
    connected and the broker takes the message, publishes exactly one command
    on [devices/<device>/commands], stamped with the current time and expiring
    30 s (lock), 60 s (emergency unlock) or 10 s (status request) later; when
    the channel is not connected each of them throws
    ["MQTT client not connected"] and publishes nothing. *)
Theorem device_commands_dispatch deviceId slotId w :
  let lock := DeviceService.sendSlotLockCommand deviceId slotId w in
  let emergency := DeviceService.sendEmergencyUnlockCommand deviceId slotId w in
  let status := DeviceEvents.sendStatusRequest deviceId w in
  (w_mqtt_connected w = true → w_fault w IoPublish = false →
     lock.1 = Ok tt ∧ published_one w lock.2 deviceId lock_slot (Some slotId) 30000
     ∧ emergency.1 = Ok tt
     ∧ published_one w emergency.2 deviceId emergency_unlock (Some slotId) 60000
     ∧ status.1 = Ok tt ∧ published_one w status.2 deviceId status_request None 10000)
  ∧ (w_mqtt_connected w = false →
     lock.1 = Throw "MQTT client not connected" ∧ w_published lock.2 = w_published w
     ∧ emergency.1 = Throw "MQTT client not connected"
     ∧ w_published emergency.2 = w_published w
     ∧ status.1 = Throw "MQTT client not connected" ∧ w_published status.2 = w_published w).
Proof.
  cbv zeta. split.
  - intros Hc Hf.
    rewrite sendSlotLockCommand_run, sendEmergencyUnlockCommand_run by done.
    unfold DeviceEvents.sendStatusRequest. munfold. simpl.
    rewrite publishCommand_run by done. simpl.
    unfold published_one. simpl.
    split; [done|]. split; [eexists; split; [reflexivity|done]|].
    split; [done|]. split; [eexists; split; [reflexivity|done]|].
    split; [done|]. eexists; split; [reflexivity|done].
  - intros Hc.
    unfold DeviceService.sendSlotLockCommand, DeviceService.sendEmergencyUnlockCommand,
      DeviceEvents.sendStatusRequest, DeviceService.randomSuffix.
    munfold. simpl. rewrite !publishCommand_offline by done. simpl. done.
Qed.

(** ** Device events (DeviceService.handleDeviceEvent) *)

(** X13.  [handleDeviceEvent] never throws, whatever JSON value the event
    is, [null] included.  It caches the device status for 300 s for every
    event.  It sets the tamper flag of the device for 24 hours exactly when
    the event has a [type] member that is the string [tamper_detected].  It
    writes no other key, publishes no command (an [unlock_success] report
    opens nothing), schedules nothing and leaves the security log as it
    was. *)
Theorem handleDeviceEvent_contained cfg status_text ledger_event deviceId event w :
  let r := DeviceEvents.handleDeviceEvent cfg status_text ledger_event deviceId event w in
  let status := {| Redis.e_val := Redis.Str (status_text (w_now w) event);
                   Redis.e_exp := Some (w_now w + 300 * 1000) |} in
  let flag := {| Redis.e_val := Redis.Str "true";
                 Redis.e_exp := Some (w_now w + 24 * 3600 * 1000) |} in
  let cached := <[RedisService.getKey cfg ["device_status"; deviceId] := status]> (w_redis w) in
  r.1 = Ok tt
  ∧ w_published r.2 = w_published w ∧ w_timers r.2 = w_timers w
  ∧ w_seclog r.2 = w_seclog w ∧ w_now r.2 = w_now w
  ∧ w_redis r.2 =
      (if reports_tamper event
       then <[RedisService.getKey cfg ["cache"; "device_tamper:" +:+ deviceId] := flag]> cached
       else cached)
  ∧ (reports_tamper event = true
     ↔ DeviceEvents.member "type" event = Some (DeviceEvents.JsonString "tamper_detected")).
Proof.
  cbv zeta.
  assert (Htamper : reports_tamper event = true
     ↔ DeviceEvents.member "type" event = Some (DeviceEvents.JsonString "tamper_detected")).
  { unfold reports_tamper.
    destruct (DeviceEvents.member "type" event) as [[| | |t| |]|]; try (split; done).
    case_bool_decide; split; congruence. }
  split_and!; [..|exact Htamper];
    unfold DeviceEvents.handleDeviceEvent, DeviceEvents.handleTamperDetected,
      DeviceEvents.handleUnlockSuccess, DeviceEvents.handleUnlockFailed,
      DeviceEvents.handleDoorEvent, RedisKeys.setDeviceStatus, RedisService.setCache,
      RedisService.client_setEx, Redis.setEx, EventLedgerService.logEvent,
      EventLedgerService.storeEvent, randomUUID, reports_tamper;
    munfold;
    (destruct event as [|b|n|s|items|members]; simpl; try done);
    (destruct (List.find _ _) as [[k [| | |t| |]]|]; simpl; try done);
    (case_bool_decide as H1; [by subst t|]);
    (case_bool_decide as H2; [by subst t|]);
    (case_bool_decide as H3; [done|]);
    by destruct (_ || _).
Qed.

(** ** The demonstration server *)

Section SimpleServerFacts.

Import SimpleServer.

(** [find] and the update in place meet at the same element. *)
Lemma update_found_spec i f (l : list MockSlot) slot :
  List.find (fun s => bool_decide (ms_id s = i)) l = Some slot →
  ∃ l1 l2, l = l1 ++ slot :: l2 ∧ update_found i f l = l1 ++ f slot :: l2
           ∧ Forall (fun s => ms_id s ≠ i) l1 ∧ ms_id slot = i.
Proof.
  induction l as [|s l IH]; simpl; [done|].
  destruct (bool_decide (ms_id s = i)) eqn:Hi.
  - intros [= ->]. apply bool_decide_eq_true_1 in Hi. by exists [], l.
  - intros Hfind. apply bool_decide_eq_false_1 in Hi.
    destruct (IH Hfind) as (l1 & l2 & -> & -> & Hl1 & Hid).
    exists (s :: l1), l2. repeat split; try done. by constructor.
Qed.

Lemma find_app_skip i (l1 l2 : list MockSlot) :
  Forall (fun s => ms_id s ≠ i) l1 →
  List.find (fun s => bool_decide (ms_id s = i)) (l1 ++ l2)
  = List.find (fun s => bool_decide (ms_id s = i)) l2.
Proof.
  induction 1 as [|s l1 Hs Hl1 IH]; simpl; [done|].
  by rewrite bool_decide_eq_false_2.
Qed.

Lemma push_event_ids now type description metadata d :
  event_ids_consecutive d →
  event_ids_consecutive (push_event now type description metadata d).
Proof.
  intros H i ev. unfold push_event. simpl. intros Hi.
  apply lookup_app_Some in Hi as [Hi|[Hlen Hi]]; [by apply H|].
  apply list_lookup_singleton_Some in Hi as [Hi <-]. simpl. lia.
Qed.

Lemma with_slots_event_ids l d :
  event_ids_consecutive d → event_ids_consecutive (with_slots l d).
Proof. done. Qed.

(** The three counts of the statistics add up. *)
Lemma counts_add_up (l : list MockSlot) :
  Forall slot_wellformed l →
  (length (List.filter (fun s => bool_decide (ms_status s = "occupied")) l)
   + length (List.filter (fun s => bool_decide (ms_status s = "available")) l)
   + length (List.filter (fun s => bool_decide (ms_status s = "maintenance")) l)
   = length l)%nat.
Proof.
  induction 1 as [|s l [Hs _] Hl IH]; simpl; [done|].
  destruct Hs as [Hs | [Hs | Hs]]; rewrite Hs; simpl; lia.
Qed.

(** Every request keeps the invariant. *)
Lemma handle_invariant now req d0 d :
  mock_invariant d0 d → mock_invariant d0 (handle now req d).2.
Proof.
  intros [Hids Hlock Hord Hev Hevid Hsl].
  assert (Hupd : ∀ i slot status orderId,
            List.find (fun s => bool_decide (ms_id s = i)) (slots d) = Some slot →
            slot_wellformed {| ms_id := ms_id slot; ms_status := status;
                               ms_orderId := orderId;
                               ms_lockerNumber := ms_lockerNumber slot |} →
            let l := update_found i
                       (fun _ => {| ms_id := ms_id slot; ms_status := status;
                                    ms_orderId := orderId;
                                    ms_lockerNumber := ms_lockerNumber slot |}) (slots d) in
            map ms_id l = map ms_id (slots d0)
            ∧ map ms_lockerNumber l = map ms_lockerNumber (slots d0)
            ∧ Forall slot_wellformed l).
  { intros i slot status orderId Hfind Hwf.
    destruct (update_found_spec i
                (fun _ => {| ms_id := ms_id slot; ms_status := status; ms_orderId := orderId;
                             ms_lockerNumber := ms_lockerNumber slot |}) _ _ Hfind)
      as (l1 & l2 & Hl & Hl' & _ & _).
    cbv zeta. rewrite Hl'. rewrite <- Hids, <- Hlock. rewrite Hl in Hsl |- *.
    rewrite !map_app. simpl. split; [done|]. split; [done|].
    apply Forall_app in Hsl as [H1 H2]. apply Forall_cons in H2 as [_ H2].
    apply Forall_app. split; [done|]. by constructor. }
  destruct req as [slotId orderId|slotId actor]; simpl.
  - unfold assign.
    destruct slotId as [i|]; simpl; [|by split].
    destruct (List.find _ (slots d)) as [slot|] eqn:Hfind; [|by split].
    destruct (bool_decide (ms_status slot = "available")); simpl; [|by split].
    destruct (Hupd i slot "occupied" orderId Hfind) as (H1 & H2 & H3).
    { split; simpl; [by left|done]. }
    split; simpl; try done.
    + etrans; [exact Hev|]. by apply prefix_app_r.
    + by apply push_event_ids.
  - unfold open_slot.
    destruct slotId as [i|]; simpl; [|by split].
    destruct (List.find _ (slots d)) as [slot|] eqn:Hfind; [|by split].
    destruct (bool_decide (actor = Some "customer")); simpl.
    + destruct (Hupd i slot "available" None Hfind) as (H1 & H2 & H3).
      { split; simpl; [right; by left|done]. }
      split; simpl; try done.
      * etrans; [exact Hev|]. rewrite <- app_assoc. by apply prefix_app_r.
      * apply push_event_ids.
        apply (with_slots_event_ids _ (push_event _ _ _ _ d)). by apply push_event_ids.
    + split; simpl; try done.
      * etrans; [exact Hev|]. by apply prefix_app_r.
      * by apply push_event_ids.
Qed.

Lemma serve_invariant reqs : ∀ d0 d,
  mock_invariant d0 d → mock_invariant d0 (serve reqs d).
Proof.
  unfold serve. induction reqs as [|[t req] reqs IH]; intros d0 d H; simpl; [done|].
  apply IH. by apply handle_invariant.
Qed.

End SimpleServerFacts.

(** X21.  [POST /api/slots/:id/assign] of the demonstration server answers
    404 when no slot has the id (or the id is not a number) and 400 when the
    slot is not [available], in both cases without changing the data.
    Otherwise it answers with the slot, now [occupied] and holding the order
    of the request; a lookup of the id finds that slot, lookups of other ids
    find what they found before; one [SLOT_ASSIGNED] event is appended, its id
    the number of events so far plus one; and a second assignment of the same
    slot is refused with 400. *)
Theorem simple_assign now slotId orderId d :
  let r := SimpleServer.assign now slotId orderId d in
  match SimpleServer.findSlot slotId d with
  | None => r = (SimpleServer.Error 404 "Slot not found", d)
  | Some slot =>
      if bool_decide (SimpleServer.ms_status slot = "available") then
        ∃ slot',
          r.1 = SimpleServer.Data slot'
          ∧ SimpleServer.ms_id slot' = SimpleServer.ms_id slot
          ∧ SimpleServer.ms_status slot' = "occupied"
          ∧ SimpleServer.ms_orderId slot' = orderId
          ∧ SimpleServer.findSlot slotId r.2 = Some slot'
          ∧ (∀ j, Some j ≠ slotId →
               SimpleServer.findSlot (Some j) r.2 = SimpleServer.findSlot (Some j) d)
          ∧ (∃ ev, SimpleServer.events r.2 = SimpleServer.events d ++ [ev]
                   ∧ SimpleServer.me_type ev = "SLOT_ASSIGNED"
                   ∧ SimpleServer.me_id ev = Z.of_nat (length (SimpleServer.events d)) + 1)
          ∧ SimpleServer.orders r.2 = SimpleServer.orders d
          ∧ (∀ now2 orderId2,
               SimpleServer.assign now2 slotId orderId2 r.2
               = (SimpleServer.Error 400 "Slot not available", r.2))
      else r = (SimpleServer.Error 400 "Slot not available", d)
  end.
Proof.
  cbv zeta. unfold SimpleServer.assign.
  destruct slotId as [i|]; simpl; [|done].
  destruct (List.find _ (SimpleServer.slots d)) as [slot|] eqn:Hfind; [|done].
  destruct (bool_decide (SimpleServer.ms_status slot = "available")) eqn:Hav; simpl; [|done].
  set (slot' := {| SimpleServer.ms_id := SimpleServer.ms_id slot;
                   SimpleServer.ms_status := "occupied";
                   SimpleServer.ms_orderId := orderId;
                   SimpleServer.ms_lockerNumber := SimpleServer.ms_lockerNumber slot |}).
  destruct (update_found_spec i (fun _ => slot') _ _ Hfind) as (l1 & l2 & Hl & Hl' & Hl1 & Hid).
  assert (Hnew : List.find (fun s => bool_decide (SimpleServer.ms_id s = i))
                   (SimpleServer.update_found i (fun _ => slot') (SimpleServer.slots d))
                 = Some slot').
  { rewrite Hl', find_app_skip by done. simpl. by rewrite bool_decide_eq_true_2. }
  exists slot'. repeat split; try done.
  - intros j Hj. simpl. rewrite Hl', Hl.
    assert (Hji : j ≠ i) by congruence.
    clear -Hji Hid. induction l1 as [|s l1 IH]; simpl.
    + rewrite Hid. by rewrite !bool_decide_eq_false_2 by congruence.
    + by rewrite IH.
  - eexists. split; [reflexivity|]. done.
  - intros now2 orderId2. rewrite Hnew. simpl. done.
Qed.

(** X22.  [POST /api/slots/:id/open]: when the actor is the customer the
    slot found becomes [available] and loses its order whatever its status
    was (a slot in maintenance too), and two events with consecutive ids are
    appended, [DOOR_OPENED] then [ORDER_COLLECTED]; the slot can then be
    assigned again.  For any other actor the slots are left as they are and
    only the [DOOR_OPENED] event is appended. *)
Theorem simple_open now slotId actor d slot :
  SimpleServer.findSlot slotId d = Some slot →
  let r := SimpleServer.open_slot now slotId actor d in
  let n := Z.of_nat (length (SimpleServer.events d)) in
  if bool_decide (actor = Some "customer") then
    (∃ slot', SimpleServer.findSlot slotId r.2 = Some slot'
              ∧ SimpleServer.ms_status slot' = "available"
              ∧ SimpleServer.ms_orderId slot' = None)
    ∧ (∃ e1 e2, SimpleServer.events r.2 = SimpleServer.events d ++ [e1; e2]
                ∧ SimpleServer.me_type e1 = "DOOR_OPENED" ∧ SimpleServer.me_id e1 = n + 1
                ∧ SimpleServer.me_type e2 = "ORDER_COLLECTED" ∧ SimpleServer.me_id e2 = n + 2)
    ∧ (∀ now2 orderId, ∃ slot2,
         (SimpleServer.assign now2 slotId orderId r.2).1 = SimpleServer.Data slot2
         ∧ SimpleServer.ms_orderId slot2 = orderId)
  else
    r.1 = SimpleServer.Opened "Slot opened successfully" slot
    ∧ SimpleServer.slots r.2 = SimpleServer.slots d
    ∧ (∃ e1, SimpleServer.events r.2 = SimpleServer.events d ++ [e1]
             ∧ SimpleServer.me_type e1 = "DOOR_OPENED" ∧ SimpleServer.me_id e1 = n + 1).
Proof.
  intros Hf. cbv zeta. unfold SimpleServer.open_slot. rewrite Hf.
  destruct slotId as [i|]; [|done]. simpl in Hf.
  destruct (bool_decide (actor = Some "customer")); simpl.
  - set (slot' := {| SimpleServer.ms_id := SimpleServer.ms_id slot;
                     SimpleServer.ms_status := "available";
                     SimpleServer.ms_orderId := None;
                     SimpleServer.ms_lockerNumber := SimpleServer.ms_lockerNumber slot |}).
    destruct (update_found_spec i (fun _ => slot') _ _ Hf) as (l1 & l2 & Hl & Hl' & Hl1 & Hid).
    assert (Hnew : List.find (fun s => bool_decide (SimpleServer.ms_id s = i))
                     (SimpleServer.update_found i (fun _ => slot') (SimpleServer.slots d))
                   = Some slot').
    { rewrite Hl', find_app_skip by done. simpl. by rewrite bool_decide_eq_true_2. }
    split; [by exists slot'|]. split.
    + eexists _, _. rewrite <- app_assoc. split; [reflexivity|]. simpl.
      rewrite length_app. simpl. repeat split; lia.
    + intros now2 orderId. unfold SimpleServer.assign. simpl. rewrite Hnew. simpl.
      by eexists.
  - split; [done|]. split; [done|]. eexists. split; [reflexivity|]. done.
Qed.

Lemma simple_open_witness :
  let r := SimpleServer.open_slot 10 (Some 5) (Some "customer") (SimpleServer.mockData 0) in
  (∃ slot', SimpleServer.findSlot (Some 5) r.2 = Some slot'
            ∧ SimpleServer.ms_status slot' = "available"
            ∧ SimpleServer.ms_orderId slot' = None)
  ∧ (∀ now2 orderId, ∃ slot2,
       (SimpleServer.assign now2 (Some 5) orderId r.2).1 = SimpleServer.Data slot2
       ∧ SimpleServer.ms_orderId slot2 = orderId).
Proof.
  pose proof (simple_open 10 (Some 5) (Some "customer") (SimpleServer.mockData 0) _ eq_refl)
    as H.
  cbv zeta in H. rewrite bool_decide_eq_true_2 in H by done.
  destruct H as (H1 & _ & H3). split; [exact H1|exact H3].
Defined.

(** X23.  Whatever requests the demonstration server has handled since it
    was loaded, it still has its five slots with their ids and locker numbers
    and its two orders; every slot is [occupied], [available] or in
    [maintenance], an available slot holds no order, and the three counts of
    [GET /api/stats] add up to the five slots; the two initial events are
    still the first two, and the event ids are 1, 2, 3, ... without gap or
    repetition. *)
Theorem simple_server_invariants t0 reqs :
  let d := SimpleServer.serve reqs (SimpleServer.mockData t0) in
  let s := SimpleServer.stats d in
  map SimpleServer.ms_id (SimpleServer.slots d) = [1; 2; 3; 4; 5]
  ∧ map SimpleServer.ms_lockerNumber (SimpleServer.slots d) = [1; 2; 3; 4; 5]
  ∧ SimpleServer.orders d = SimpleServer.orders (SimpleServer.mockData t0)
  ∧ Forall slot_wellformed (SimpleServer.slots d)
  ∧ (SimpleServer.totalSlots s = 5
     ∧ SimpleServer.occupiedSlots s + SimpleServer.availableSlots s
       + SimpleServer.maintenanceSlots s = 5
     ∧ SimpleServer.totalOrders s = 2 ∧ SimpleServer.deliveredToday s = 2)%nat
  ∧ SimpleServer.events (SimpleServer.mockData t0) `prefix_of` SimpleServer.events d
  ∧ event_ids_consecutive d
  ∧ NoDup (map SimpleServer.me_id (SimpleServer.events d)).
Proof.
  intros d s.
  assert (Hinit : mock_invariant (SimpleServer.mockData t0) (SimpleServer.mockData t0)).
  { split; try done.
    - intros [|[|i]] ev; simpl; try done; by intros [= <-].
    - repeat constructor; simpl; auto; done. }
  destruct (serve_invariant reqs _ _ Hinit) as [Hids Hlock Hord Hev Hevid Hsl].
  fold d in Hids, Hlock, Hord, Hev, Hevid, Hsl.
  assert (Hlen : length (SimpleServer.slots d) = 5%nat).
  { apply (f_equal length) in Hids. by rewrite !length_map in Hids. }
  split; [done|]. split; [done|]. split; [done|]. split; [done|].
  split.
  { unfold s, SimpleServer.stats, SimpleServer.count_status. simpl.
    rewrite counts_add_up by done. rewrite Hord. done. }
  split; [done|]. split; [done|].
  apply NoDup_alt. intros i j x Hi Hj.
  apply list_lookup_fmap_Some in Hi as (e1 & -> & He1).
  apply list_lookup_fmap_Some in Hj as (e2 & Heq & He2).
  apply Hevid in He1. apply Hevid in He2. lia.
Qed.

(** ** Service start-up (index.ts) *)

Section StartupFacts.

Import Startup.

Lemma initialize_each_spec services :
  let r := initialize_each services in
  match r.2 with
  | Completed => Forall starts_or_optional services ∧ r.1 = map sv_name services
  | Exit code n =>
      code = 1
      ∧ ∃ before s after,
          services = before ++ s :: after
          ∧ sv_name s = n ∧ sv_required s = true ∧ sv_init_throws s = true
          ∧ Forall starts_or_optional before
          ∧ r.1 = map sv_name (before ++ [s])
  end.
Proof.
  induction services as [|s services IH]; simpl; [done|].
  cbv zeta in IH.
  destruct (sv_init_throws s) eqn:Ht; [destruct (sv_required s) eqn:Hr|]; simpl.
  - split; [done|]. exists [], s, services. done.
  - destruct (initialize_each services).2 as [|code n].
    + destruct IH as [IH1 IH2]. split; [|by rewrite IH2].
      constructor; [|done]. unfold starts_or_optional. by rewrite Hr.
    + destruct IH as (-> & before & s' & after & -> & Hn & Hreq & Hth & Hb & Hat).
      split; [done|]. exists (s :: before), s', after. simpl. rewrite Hat.
      repeat split; try done. constructor; [|done].
      unfold starts_or_optional. by rewrite Hr.
  - destruct (initialize_each services).2 as [|code n].
    + destruct IH as [IH1 IH2]. split; [|by rewrite IH2].
      constructor; [|done]. by intros _.
    + destruct IH as (-> & before & s' & after & -> & Hn & Hreq & Hth & Hb & Hat).
      split; [done|]. exists (s :: before), s', after. simpl. rewrite Hat.
      repeat split; try done. constructor; [|done]. by intros _.
Qed.

End StartupFacts.

(** X24.  Start-up with graceful degradation.  The loop of
    [initializeServices] returns exactly when no required service fails to
    initialize, and has then called every [init()] in order; otherwise the
    process exits with code 1 at the first required service that fails,
    every service before it having been tried and none after it.  For the
    list of the source this means: start-up completes exactly when Auth,
    OrderOrchestrator, EventLedger and Device initialize, whether or not
    Database, Redis and MQTT do. *)
Theorem initializeServices_outcome services throws :
  let r := Startup.initialize_each services in
  (r.2 = Startup.Completed ↔ Forall starts_or_optional services)
  ∧ (r.2 = Startup.Completed → r.1 = map Startup.sv_name services)
  ∧ (∀ code n, r.2 = Startup.Exit code n →
       code = 1
       ∧ ∃ before s after,
           services = before ++ s :: after
           ∧ Startup.sv_name s = n
           ∧ Startup.sv_required s = true ∧ Startup.sv_init_throws s = true
           ∧ Forall starts_or_optional before
           ∧ r.1 = map Startup.sv_name (before ++ [s]))
  ∧ ((Startup.initializeServices throws).2 = Startup.Completed
     ↔ throws "Auth" = false ∧ throws "OrderOrchestrator" = false
       ∧ throws "EventLedger" = false ∧ throws "Device" = false).
Proof.
  assert (Hiff : ∀ l, (Startup.initialize_each l).2 = Startup.Completed
                      ↔ Forall starts_or_optional l).
  { intros l. pose proof (initialize_each_spec l) as H. cbv zeta in H.
    destruct (Startup.initialize_each l).2 as [|code n].
    - by destruct H.
    - split; [done|]. intros Hall.
      destruct H as (_ & before & s & after & -> & _ & Hreq & Hth & _).
      apply Forall_app in Hall as [_ Hall]. apply Forall_cons in Hall as [Hs _].
      specialize (Hs Hreq). congruence. }
  pose proof (initialize_each_spec services) as H. cbv zeta in H |- *.
  split; [apply Hiff|]. split; [|split].
  - intros Hc. rewrite Hc in H. by destruct H.
  - intros code n He. by rewrite He in H.
  - unfold Startup.initializeServices. rewrite Hiff. unfold Startup.services.
    rewrite !Forall_cons, Forall_nil. unfold starts_or_optional. simpl.
    split.
    + intros (_ & _ & _ & H1 & H2 & H3 & H4 & _). auto.
    + intros (H1 & H2 & H3 & H4). repeat split; try done.
Qed.

(** ** Unlock tokens: presentations one after the other *)

(** X26.  Presentations that do not overlap.  A token that
    [generateUnlockToken] returned, presented for the first time with the
    shelf it was issued for while its jti registration is still as issued and
    the clock reads within [nbf, exp), is accepted: [verifyUnlockToken]
    returns its claims and removes the jti record.  Every presentation of
    that token that starts after this call has returned, at any time and for
    any shelf, returns null. *)
Theorem unlock_token_sequential_single_use
    cfg orderId riderId slotId shelfId siteId tenantId w token w1 claims w2
    (attempts : list (Z * string)) :
  0 ≤ Config.security_clockSkewToleranceSeconds cfg →
  AuthService.generateUnlockToken cfg orderId riderId slotId shelfId siteId tenantId w
    = (Ok token, w1) →
  claims_of token = Some claims →
  w_redis w2 !! jti_key cfg (jti claims) = w_redis w1 !! jti_key cfg (jti claims) →
  nbf claims ≤ clock w2 < exp claims →
  let v := AuthService.verifyUnlockToken cfg token shelfId w2 in
  v.1 = Ok (Some claims)
  ∧ w_redis v.2 !! jti_key cfg (jti claims) = None
  ∧ Forall (λ r, r = Ok None)
      (present_all cfg (map (λ a, (a.1, token, a.2)) attempts) v.2).1.
Proof.
  intros Htol Hgen Hclaims Hsame Hwin v.
  destruct (issued_token_accepted cfg orderId riderId slotId shelfId siteId tenantId
              w token w1 claims w2 Htol Hgen Hclaims Hsame Hwin) as [Hv Hdel].
  fold v in Hv, Hdel.
  assert (Hgone : w_redis v.2 !! jti_key cfg (jti claims) = None).
  { rewrite Hdel. apply lookup_delete_eq. }
  split; [done|]. split; [done|].
  by eapply present_all_consumed.
Qed.

Lemma unlock_token_sequential_single_use_witness :
  let v := AuthService.verifyUnlockToken Config.default ex_token "SHELF-A"
             (set_now 1030000 ex_issued) in
  v.1 = Ok (Some ex_claims)
  ∧ w_redis v.2 !! jti_key Config.default (jti ex_claims) = None
  ∧ Forall (λ r, r = Ok None)
      (present_all Config.default
         (map (λ a, (a.1, ex_token, a.2)) [(1031000, "SHELF-A"); (1032000, "SHELF-B")])
         v.2).1.
Proof.
  apply (unlock_token_sequential_single_use Config.default "O1" "R1" "S1" "SHELF-A"
           "SITE-1" "T1" ex_world ex_token ex_issued ex_claims (set_now 1030000 ex_issued)
           [(1031000, "SHELF-A"); (1032000, "SHELF-B")]).
  - vm_compute. discriminate.
  - vm_compute. reflexivity.
  - reflexivity.
  - reflexivity.
  - vm_compute. split; [discriminate | reflexivity].
Defined.

(** ** The workflows with the placeholder database helpers *)

(** X27.  With the database helpers as they are written ([getOrder],
    [getSlot], [getOrderAssignedSlot], [findAvailableSlot] and [findUserById]
    return [null]; [updateSlotState] and [updateOrderStatus] only write to the
    logger), every workflow of the orchestrator stops at its first lookup:
    [assignOrderToSlot] answers the failure result and [requestUnlock]
    answers "Order not found", for every request; [handleUnlockFailure] and
    the delayed reset return without any effect; [confirmUnlock] only
    schedules the reset, 30 s ahead; the step-up check fails for every user
    and code, so [emergencyUnlock] answers false.  None of them reserves a
    slot, issues a token, counts an attempt or publishes a command. *)
Theorem orchestrator_with_placeholders cfg totp_verify str_slice base64_json w :
  (∀ request,
     OrderOrchestratorService.assignOrderToSlot cfg str_slice base64_json request w
     = (Ok assignment_failed, w))
  ∧ (∀ request,
       OrderOrchestratorService.requestUnlock cfg request w
       = (Ok (OrderOrchestratorService.unlock_failure "Order not found"), w))
  ∧ (∀ slotId orderId riderId,
       OrderOrchestratorService.confirmUnlock slotId orderId riderId w
       = (Ok tt, set_timers (w_timers w ++ [(w_now w + 30000, slotId)]) w))
  ∧ (∀ slotId, OrderOrchestratorService.resetSlotAfterPickup cfg slotId w = (Ok tt, w))
  ∧ (∀ slotId orderId riderId reason,
       OrderOrchestratorService.handleUnlockFailure slotId orderId riderId reason w
       = (Ok tt, w))
  ∧ (∀ userId totpCode,
       AuthService.verifyStepUpAuth totp_verify userId totpCode w = (Ok false, w))
  ∧ (∀ slotId staffId reason totpCode,
       OrderOrchestratorService.emergencyUnlock totp_verify slotId staffId reason totpCode w
       = (Ok false, w)).
Proof. repeat split. Qed.

